(** * The Greed Trial backend (app.py): caches and outcome generator

    A shallow embedding of the parts of [app.py] that hold the game's
    server-side state: the rigged outcome generator ([generate_pattern],
    [get_next_outcome]), the trivia cache ([fetch_trivia_from_api],
    [prefetch_trivia], [get_trivia_question]) and the leaderboard cache
    ([refresh_leaderboard] and the [/api/leaderboard] read path).

    Python's module-level globals become the fields of one [world] record
    that every function threads explicitly; an exception is a [Raise]
    outcome that leaves the world as it was when the exception left the
    function, and a loop that never ends is a [Diverges] outcome.  Randomness, the clock, the network and the two JSON files are
    inputs of the world, so every theorem below is quantified over all of
    their behaviours. *)

From Stdlib Require Import QArith Lqa.
From stdpp Require Import gmap strings list fin_maps sorting.

Local Open Scope Z_scope.

(** ** Python values and outcomes *)

Inductive exn :=
  | IndexError
  | ValueError
  | KeyError (key : string)
  | AttributeError
  | JSONDecodeError
  | URLError
  | HTTPError (status : Z).

(** A call returns a value, leaves with an exception, or never ends (the
    one loop of the program that has no bound is the redraw loop of
    [random.sample]). *)
Inductive outcome (A : Type) :=
  | Return (a : A)
  | Raise (e : exn)
  | Diverges.
Arguments Return {A} a.
Arguments Raise {A} e.
Arguments Diverges {A}.

Definition returns {A} (o : outcome A) : Prop := ∃ a, o = Return a.

(** Strict comparison of two rationals, as a boolean. *)
Definition Qltb (a b : Q) : bool := negb (Qle_bool b a).

(** *** Python floats

    A float is a rational that an IEEE 754 double can hold.  The clock
    readings and the literals of the source are taken as given; the sums
    and differences the source computes from clock readings round as
    Python rounds them. *)

(** The integer nearest to [num / den], the even one of the two when they
    are equally near. *)
Definition round_half_even (num den : Z) : Z :=
  let f := num / den in
  let r := num mod den in
  if 2 * r <? den then f
  else if den <? 2 * r then f + 1
  else if Z.even f then f else f + 1.

(** The exponent [e] with [2^e ≤ n / d < 2^(e+1)], for positive [n], [d]. *)
Definition binade (n d : Z) : Z :=
  let e := Z.log2 n - Z.log2 d in
  if (if 0 <=? e then 2 ^ e * d <=? n else d <=? n * 2 ^ (- e))
  then e else e - 1.

(** The double nearest to a rational (binary64, round to nearest, ties to
    even): 53 significant bits and no bit below 2^-1074.  A magnitude
    beyond the largest double, which the source rounds to infinity, is
    rounded like the others. *)
Definition round_to_double (x : Q) : Q :=
  let n := Z.abs (Qnum x) in
  let d := Z.pos (Qden x) in
  if n =? 0 then 0%Q else
  let q := Z.max (binade n d - 52) (-1074) in
  let m := if 0 <=? q then round_half_even n (d * 2 ^ q)
           else round_half_even (n * 2 ^ (- q)) d in
  let s := Z.sgn (Qnum x) in
  Qred (if 0 <=? q then s * m * 2 ^ q # 1 else s * m # Z.to_pos (2 ^ (- q))).

(** [a - b] and [a + b] on two floats. *)
Definition float_sub (a b : Q) : Q := round_to_double (a - b).
Definition float_add (a b : Q) : Q := round_to_double (a + b).

(** ** The data the server keeps *)

(** One entry of [active_games].  The code tests ["pattern" not in state],
    so the pattern may be absent; the other keys are read unconditionally. *)
Record game_state := GameState {
  level : Z;
  money : Q;
  streak : Z;
  pattern : option (list Z);
  pattern_pos : Z }.

(** A trivia question as stored in a pool.  The fallback banks carry no
    ["category"] key, fetched questions do. *)
Record question := Question {
  question_text : string;
  correct_answer : string;
  incorrect_answers : list string;
  category : option string }.

(** What [get_trivia_question] hands to the client. *)
Record question_view := QuestionView {
  view_question : string;
  view_answers : list string;
  view_correct : string;
  view_category : string }.

(** A leaderboard row as [update_score] writes it.  [refresh_leaderboard]
    reads the score with [x.get("score", 0)], hence the option. *)
Record lb_entry := LbEntry {
  lb_username : string;
  lb_emoji : string;
  lb_score : option Z;
  lb_crashes : Z;
  lb_total_games : Z;
  lb_total_wins : Z;
  lb_best_streak : Z;
  lb_time : Q }.

(** The part of the JSON database the caches read: the ["leaderboard"]
    key, which may be missing. *)
Record database := Database {
  db_leaderboard : option (list lb_entry) }.

(** One item of the ["results"] array of the question source; [None] is a
    missing key. *)
Record raw_question := RawQuestion {
  raw_text : option string;
  raw_correct : option string;
  raw_incorrect : option (list string);
  raw_category : option string }.

(** The decoded body of a reply of the question source. *)
Inductive payload :=
  | NotJson
  | NotObject
  | Object (response_code : option Z) (results : option (list raw_question)).

(** What [urllib.request.urlopen] does with a request: it raises
    [URLError] (or times out), raises [HTTPError] with a status code, or
    yields a body. *)
Inductive http_reply :=
  | UrlError
  | HttpError (status : Z)
  | Response (body : payload).

(** ** The world *)

Record world := World {
  active_games : gmap string game_state;
  trivia_cache : gmap string (list question);
  cached_leaderboard : list lb_entry;
  last_fetch_time : Q;
  clock : Q;
  rng : list N;
  net : list (Q * http_reply);
  db_file : option database;
  trivia_cache_file : option (gmap string (list question));
  disk_writable : bool }.

Definition set_active_games (g : gmap string game_state) (w : world) : world :=
  World g (trivia_cache w) (cached_leaderboard w) (last_fetch_time w) (clock w)
        (rng w) (net w) (db_file w) (trivia_cache_file w) (disk_writable w).
Definition set_trivia_cache (c : gmap string (list question)) (w : world) : world :=
  World (active_games w) c (cached_leaderboard w) (last_fetch_time w) (clock w)
        (rng w) (net w) (db_file w) (trivia_cache_file w) (disk_writable w).
Definition set_cached_leaderboard (l : list lb_entry) (w : world) : world :=
  World (active_games w) (trivia_cache w) l (last_fetch_time w) (clock w)
        (rng w) (net w) (db_file w) (trivia_cache_file w) (disk_writable w).
Definition set_last_fetch_time (t : Q) (w : world) : world :=
  World (active_games w) (trivia_cache w) (cached_leaderboard w) t (clock w)
        (rng w) (net w) (db_file w) (trivia_cache_file w) (disk_writable w).
Definition set_clock (t : Q) (w : world) : world :=
  World (active_games w) (trivia_cache w) (cached_leaderboard w) (last_fetch_time w) t
        (rng w) (net w) (db_file w) (trivia_cache_file w) (disk_writable w).
Definition set_rng (g : list N) (w : world) : world :=
  World (active_games w) (trivia_cache w) (cached_leaderboard w) (last_fetch_time w) (clock w)
        g (net w) (db_file w) (trivia_cache_file w) (disk_writable w).
Definition set_net (n : list (Q * http_reply)) (w : world) : world :=
  World (active_games w) (trivia_cache w) (cached_leaderboard w) (last_fetch_time w) (clock w)
        (rng w) n (db_file w) (trivia_cache_file w) (disk_writable w).
Definition set_trivia_cache_file (f : option (gmap string (list question))) (w : world) : world :=
  World (active_games w) (trivia_cache w) (cached_leaderboard w) (last_fetch_time w) (clock w)
        (rng w) (net w) (db_file w) f (disk_writable w).

(** ** A state-and-exception monad over the world *)

Definition Py (A : Type) : Type := world → outcome A * world.

Definition ret {A} (a : A) : Py A := λ w, (Return a, w).
Definition raise {A} (e : exn) : Py A := λ w, (Raise e, w).
Definition bind {A B} (m : Py A) (k : A → Py B) : Py B :=
  λ w, match m w with
       | (Return a, w') => k a w'
       | (Raise e, w') => (Raise e, w')
       | (Diverges, w') => (Diverges, w')
       end.
Definition diverge {A} : Py A := λ w, (Diverges, w).
Definition gets {A} (f : world → A) : Py A := λ w, (Return (f w), w).
Definition modify (f : world → world) : Py unit := λ w, (Return tt, f w).

Declare Scope py_scope.
Delimit Scope py_scope with py.
Notation "x <- m ;; k" := (bind m (λ x, k))
  (at level 100, m at next level, right associativity) : py_scope.
Notation "m ;; k" := (bind m (λ _, k))
  (at level 100, right associativity) : py_scope.
Local Open Scope py_scope.

(** Monadic left fold: the body of a [for] loop run over the iterated
    values, stopping at the first exception. *)
Fixpoint for_each {A S} (xs : list A) (body : A → S → Py S) (s : S) : Py S :=
  match xs with
  | [] => ret s
  | x :: xs' => s' <- body x s ;; for_each xs' body s'
  end.

(** ** The [random] module

    The generator is a tape of raw words; each primitive consumes one word
    (an exhausted tape yields zeros).  [random.random()] returns a multiple
    of 2^-53 in [0, 1), as CPython does.  A statement quantified over all
    worlds covers every outcome of the random choices, among them the
    generators that repeat themselves for ever. *)

Definition next_raw : Py N := λ w,
  (Return (hd 0%N (rng w)), set_rng (tail (rng w)) w).

Definition random_random : Py Q :=
  r <- next_raw ;; ret (Z.of_N (r mod 2 ^ 53) # 2 ^ 53)%Q.

(** The source compares the draw with the literals 0.2, 0.15 and 0.1, which
    Python reads as the nearest IEEE doubles below.  The model compares
    with the decimals themselves; on multiples of 2^-53 the two comparisons
    agree ([decimal_thresholds_are_exact]). *)
Definition double_0_2 : Q := 3602879701896397 # 18014398509481984.
Definition double_0_15 : Q := 5404319552844595 # 36028797018963968.
Definition double_0_1 : Q := 3602879701896397 # 36028797018963968.

(** [random._randbelow(n)] for [n > 0]: a value in [0, n). *)
Definition randbelow (n : Z) : Py Z :=
  r <- next_raw ;; ret (Z.of_N r mod n).

(** [random.randint(a, b)]: a value in [a, b]. *)
Definition randint (a b : Z) : Py Z :=
  r <- randbelow (b - a + 1) ;; ret (a + r).

(** ** Python sequence operations *)

(** [l[i]]: a negative index counts from the end; out of range raises. *)
Definition py_getitem {A} (l : list A) (i : Z) : Py A :=
  let n := Z.of_nat (length l) in
  let k := if i <? 0 then i + n else i in
  if (k <? 0) || (n <=? k) then raise IndexError
  else match l !! Z.to_nat k with
       | Some x => ret x
       | None => raise IndexError
       end.

(** [l[i] = x] on a list held in a local variable. *)
Definition py_setitem {A} (l : list A) (i : Z) (x : A) : Py (list A) :=
  let n := Z.of_nat (length l) in
  let k := if i <? 0 then i + n else i in
  if (k <? 0) || (n <=? k) then raise IndexError
  else ret (<[Z.to_nat k := x]> l).

(** [range(start, stop, -1)]. *)
Definition range_down (start stop : Z) : list Z :=
  reverse (seqZ (stop + 1) (start - stop)).

(** [d[k]] on a dictionary: a missing key raises [KeyError]. *)
Definition py_dict_getitem {A} (d : gmap string A) (k : string) : Py A :=
  match d !! k with
  | Some v => ret v
  | None => raise (KeyError k)
  end.

(** [b and e] where evaluating [e] has effects: [e] runs only if [b] holds. *)
Definition and_then (b : bool) (e : Py bool) : Py bool :=
  if b then e else ret false.

(** ** RandomPatternEngine: [generate_pattern] and [get_next_outcome] *)

Definition patterns : gmap string (list Z) :=
  list_to_map
    [ ("easy",   [1; 1; 1; 1; 0; 1; 1; 1; 0; 1; 1; 1; 1; 0; 1]);
      ("medium", [1; 1; 1; 0; 1; 1; 0; 1; 1; 1; 0; 1; 0; 1; 1]);
      ("hard",   [1; 1; 0; 1; 1; 0; 1; 0; 1; 1; 0; 0; 1; 1; 0]);
      ("brutal", [1; 0; 1; 1; 0; 0; 1; 0; 1; 0; 1; 1; 0; 1; 0]) ].

(** The [if]/[elif] chain of [generate_pattern]: the copied template. *)
Definition template_for (level : Z) : Py (list Z) :=
  if level <=? 4 then py_dict_getitem patterns "easy"
  else if level <=? 10 then py_dict_getitem patterns "medium"
  else if level <=? 16 then py_dict_getitem patterns "hard"
  else py_dict_getitem patterns "brutal".

(** One iteration of the perturbation loop, at index [i]. *)
Definition perturb_step (i : Z) (pat : list Z) : Py (list Z) :=
  u <- random_random ;;
  if Qltb u 0.2 then
    k <- randint 1 3 ;;
    let j := Z.max 0 (i - k) in
    x <- py_getitem pat j ;;
    y <- py_getitem pat i ;;
    pat <- py_setitem pat i x ;;
    py_setitem pat j y
  else ret pat.

(** [for i in range(len(pat)-1, 0, -1): ...] *)
Definition perturb (pat : list Z) : Py (list Z) :=
  for_each (range_down (Z.of_nat (length pat) - 1) 0) perturb_step pat.

Definition generate_pattern (level : Z) : Py (list Z) :=
  pat <- template_for level ;;
  perturb pat.

Definition set_pattern (p : list Z) (s : game_state) : game_state :=
  GameState (level s) (money s) (streak s) (Some p) (pattern_pos s).
Definition set_pattern_pos (i : Z) (s : game_state) : game_state :=
  GameState (level s) (money s) (streak s) (pattern s) i.

(** The state dictionary is shared with [active_games]: a write to it is a
    write to the registry entry of the token. *)
Definition store_game (token : string) (s : game_state) : Py unit :=
  modify (λ w, set_active_games (<[token := s]> (active_games w)) w).

(** ["pattern" not in state or state["pattern_pos"] >= len(state["pattern"])] *)
Definition exhausted (s : game_state) : bool :=
  match pattern s with
  | None => true
  | Some pat => Z.of_nat (length pat) <=? pattern_pos s
  end.

(** The two overrides that follow the read of [result]. *)
Definition corrective_rules (result : Z) (state : game_state) : Py Z :=
  bust <- and_then ((result =? 1) && Qltb 500000 (money state))
                   (u <- random_random ;; ret (Qltb u 0.15)) ;;
  if bust then ret 0 else
  rescue <- and_then ((result =? 0) && (5 <=? streak state))
                     (u <- random_random ;; ret (Qltb u 0.1)) ;;
  if rescue then ret 1 else
  ret result.

Definition get_next_outcome (token : string) : Py Z :=
  games <- gets active_games ;;
  match games !! token with
  | None => ret 0
  | Some state =>
    state <- (if exhausted state then
                pat <- generate_pattern (level state) ;;
                let state := set_pattern_pos 0 (set_pattern pat state) in
                store_game token state ;;
                ret state
              else ret state) ;;
    pat <- (match pattern state with
            | Some pat => ret pat
            | None => raise (KeyError "pattern")
            end) ;;
    result <- py_getitem pat (pattern_pos state) ;;
    store_game token (set_pattern_pos (pattern_pos state + 1) state) ;;
    corrective_rules result state
  end.

(** The world in which the registry entry of [token] is [s]. *)
Definition with_game (token : string) (s : game_state) (w : world) : world :=
  set_active_games (<[token := s]> (active_games w)) w.

(** The value the next [random.random()] call returns in [w]. *)
Definition next_draw (w : world) : Q :=
  (Z.of_N (hd 0%N (rng w) mod 2 ^ 53) # 2 ^ 53)%Q.

(** *** The four difficulty bands, as the specification words them *)

Inductive tier := Easy | Medium | Hard | Brutal.

Definition tier_name (t : tier) : string :=
  match t with
  | Easy => "easy" | Medium => "medium" | Hard => "hard" | Brutal => "brutal"
  end.

(** Easy up to level 4, medium up to 10, hard up to 16, brutal beyond. *)
Definition tier_of_level (level : Z) : tier :=
  if decide (level ≤ 4) then Easy
  else if decide (level ≤ 10) then Medium
  else if decide (level ≤ 16) then Hard
  else Brutal.

(** The canonical template of a band: the entry of [patterns] under its name. *)
Definition bias_template (t : tier) : list Z :=
  default [] (patterns !! tier_name t).

(** Number of winning ticks of a sequence. *)
Definition wins (pat : list Z) : nat := length (filter (λ x, x = 1) pat).

(** [try: body  except ...: handler]: the handler runs in the world the
    exception left behind; a body that never ends never reaches it. *)
Definition try_except {A} (body : Py A) (handler : exn → Py A) : Py A :=
  λ w, match body w with
       | (Return a, w') => (Return a, w')
       | (Raise e, w') => handler e w'
       | (Diverges, w') => (Diverges, w')
       end.

(** A [for] loop whose body only acts on the world. *)
Definition for_each_ {A} (xs : list A) (body : A → Py unit) : Py unit :=
  for_each xs (λ x _, body x) ().

Definition len {A} (l : list A) : Z := Z.of_nat (length l).

(** ** The clock, the network and the cache file *)

Definition time_time : Py Q := gets clock.

Definition time_sleep (d : Q) : Py unit :=
  modify (λ w, set_clock (clock w + d)%Q w).

(** [urllib.request.urlopen(req, timeout=10)]: the next reply of the network
    arrives after its latency; no reply left means an unreachable source. *)
Definition urlopen (difficulty : string) (amount : Z) : Py payload := λ w,
  match net w with
  | [] => (Raise URLError, w)
  | (latency, reply) :: rest =>
    let w' := set_net rest (set_clock (clock w + latency)%Q w) in
    match reply with
    | UrlError => (Raise URLError, w')
    | HttpError status => (Raise (HTTPError status), w')
    | Response body => (Return body, w')
    end
  end.

(** [q[key]] on a decoded JSON object. *)
Definition json_getitem {A} (key : string) (field : option A) : Py A :=
  match field with
  | Some v => ret v
  | None => raise (KeyError key)
  end.

(** ** QuestionBank: the fallback banks *)

Definition FALLBACK_EASY : list question :=
  [
    Question "What planet is known as the Red Planet?"
      "Mars" ["Venus"; "Jupiter"; "Saturn"] None;
    Question "How many continents are there on Earth?"
      "7" ["5"; "6"; "8"] None;
    Question "What is the largest ocean on Earth?"
      "Pacific Ocean" ["Atlantic Ocean"; "Indian Ocean"; "Arctic Ocean"] None;
    Question "What gas do plants absorb from the atmosphere?"
      "Carbon Dioxide" ["Oxygen"; "Nitrogen"; "Helium"] None;
    Question "Which animal is known as the King of the Jungle?"
      "Lion" ["Tiger"; "Elephant"; "Bear"] None;
    Question "What is the chemical symbol for water?"
      "H2O" ["CO2"; "O2"; "NaCl"] None;
    Question "How many legs does a spider have?"
      "8" ["6"; "10"; "12"] None;
    Question "What color are emeralds?"
      "Green" ["Blue"; "Red"; "Yellow"] None;
    Question "Which country is home to the kangaroo?"
      "Australia" ["New Zealand"; "South Africa"; "Brazil"] None;
    Question "What is the hardest natural substance on Earth?"
      "Diamond" ["Gold"; "Iron"; "Platinum"] None;
    Question "How many colors are in a rainbow?"
      "7" ["5"; "6"; "8"] None;
    Question "What is the largest mammal in the world?"
      "Blue Whale" ["Elephant"; "Giraffe"; "Hippopotamus"] None;
    Question "Which planet is closest to the Sun?"
      "Mercury" ["Venus"; "Earth"; "Mars"] None;
    Question "What is the boiling point of water in Celsius?"
      "100" ["90"; "110"; "120"] None;
    Question "How many days are in a leap year?"
      "366" ["365"; "367"; "364"] None;
    Question "What is the smallest prime number?"
      "2" ["1"; "3"; "0"] None;
    Question "Which organ pumps blood through the body?"
      "Heart" ["Lungs"; "Brain"; "Liver"] None;
    Question "What fruit is known for keeping doctors away?"
      "Apple" ["Banana"; "Orange"; "Grape"] None;
    Question "How many sides does a triangle have?"
      "3" ["4"; "5"; "6"] None;
    Question "What is the freezing point of water in Celsius?"
      "0" ["-10"; "10"; "32"] None;
    Question "What is the capital of France?"
      "Paris" ["London"; "Berlin"; "Madrid"] None;
    Question "Which season comes after winter?"
      "Spring" ["Summer"; "Autumn"; "Winter"] None;
    Question "How many months have 31 days?"
      "7" ["5"; "6"; "8"] None;
    Question "What color is a ruby?"
      "Red" ["Blue"; "Green"; "Purple"] None;
    Question "What do bees produce?"
      "Honey" ["Milk"; "Silk"; "Wax"] None;
    Question "Which is the longest river in the world?"
      "Nile" ["Amazon"; "Mississippi"; "Yangtze"] None;
    Question "How many weeks are in a year?"
      "52" ["48"; "50"; "54"] None;
    Question "What is the opposite of 'hot'?"
      "Cold" ["Warm"; "Cool"; "Freezing"] None;
    Question "Which shape has 4 equal sides?"
      "Square" ["Rectangle"; "Triangle"; "Circle"] None;
    Question "What is 12 x 12?"
      "144" ["124"; "132"; "156"] None;
    Question "What animal says 'moo'?"
      "Cow" ["Sheep"; "Pig"; "Horse"] None;
    Question "How many hours are in a day?"
      "24" ["12"; "20"; "36"] None;
    Question "What is the capital of Japan?"
      "Tokyo" ["Kyoto"; "Osaka"; "Seoul"] None;
    Question "Which element has the chemical symbol 'O'?"
      "Oxygen" ["Gold"; "Osmium"; "Oganesson"] None;
    Question "What is the largest desert in the world?"
      "Sahara" ["Gobi"; "Kalahari"; "Antarctic"] None;
    Question "How many zeros are in one million?"
      "6" ["5"; "7"; "8"] None;
    Question "What primary color is made by mixing red and blue?"
      "Purple" ["Green"; "Orange"; "Brown"] None;
    Question "Which planet has rings around it?"
      "Saturn" ["Mars"; "Venus"; "Mercury"] None;
    Question "What is the main ingredient in bread?"
      "Flour" ["Sugar"; "Salt"; "Butter"] None;
    Question "How many strings does a standard guitar have?"
      "6" ["4"; "5"; "8"] None
  ].

Definition FALLBACK_MEDIUM : list question :=
  [
    Question "What year did the Titanic sink?"
      "1912" ["1905"; "1915"; "1920"] None;
    Question "Which element has the atomic number 79?"
      "Gold" ["Silver"; "Platinum"; "Copper"] None;
    Question "What is the speed of light in km/s (approximately)?"
      "300,000" ["150,000"; "500,000"; "1,000,000"] None;
    Question "Who painted the Mona Lisa?"
      "Leonardo da Vinci" ["Michelangelo"; "Raphael"; "Donatello"] None;
    Question "What is the powerhouse of the cell?"
      "Mitochondria" ["Nucleus"; "Ribosome"; "Golgi Body"] None;
    Question "Which country has the most people?"
      "India" ["China"; "USA"; "Indonesia"] None;
    Question "What is the square root of 169?"
      "13" ["11"; "12"; "14"] None;
    Question "In what year did World War II end?"
      "1945" ["1944"; "1946"; "1943"] None;
    Question "What is the currency of Japan?"
      "Yen" ["Won"; "Yuan"; "Rupee"] None;
    Question "Which blood type is the universal donor?"
      "O negative" ["A positive"; "AB positive"; "B negative"] None;
    Question "How many bones are in the adult human body?"
      "206" ["196"; "216"; "186"] None;
    Question "What is the chemical formula for table salt?"
      "NaCl" ["KCl"; "CaCl2"; "NaOH"] None;
    Question "Which planet is known as the Morning Star?"
      "Venus" ["Mars"; "Mercury"; "Jupiter"] None;
    Question "What does DNA stand for?"
      "Deoxyribonucleic Acid" ["Dinitrogen Acid"; "Dynamic Nuclear Acid"; "Dual Nucleic Acid"] None;
    Question "Who wrote 'Romeo and Juliet'?"
      "William Shakespeare" ["Charles Dickens"; "Jane Austen"; "Mark Twain"] None;
    Question "What is the smallest country in the world?"
      "Vatican City" ["Monaco"; "San Marino"; "Liechtenstein"] None;
    Question "How many chromosomes do humans have?"
      "46" ["44"; "48"; "42"] None;
    Question "What is the tallest mountain in the world?"
      "Mount Everest" ["K2"; "Kangchenjunga"; "Makalu"] None;
    Question "Which gas makes up about 78% of Earth's atmosphere?"
      "Nitrogen" ["Oxygen"; "Carbon Dioxide"; "Argon"] None;
    Question "What year was the first iPhone released?"
      "2007" ["2005"; "2008"; "2006"] None
  ].

Definition FALLBACK_HARD : list question :=
  [
    Question "What is the half-life of Carbon-14 (in years)?"
      "5,730" ["3,200"; "8,400"; "11,460"] None;
    Question "In what year was the Treaty of Westphalia signed?"
      "1648" ["1588"; "1712"; "1555"] None;
    Question "What is the Planck constant (in J·s)?"
      "6.626 x 10^-34" ["3.14 x 10^-34"; "9.81 x 10^-34"; "1.38 x 10^-23"] None;
    Question "Which mathematician proved Fermat's Last Theorem?"
      "Andrew Wiles" ["Pierre de Fermat"; "Leonhard Euler"; "Carl Gauss"] None;
    Question "What is the deepest point in the ocean?"
      "Mariana Trench" ["Tonga Trench"; "Java Trench"; "Puerto Rico Trench"] None;
    Question "What element has the highest melting point?"
      "Tungsten" ["Iron"; "Titanium"; "Carbon"] None;
    Question "Who developed the theory of General Relativity?"
      "Albert Einstein" ["Isaac Newton"; "Niels Bohr"; "Max Planck"] None;
    Question "What is the capital of Mongolia?"
      "Ulaanbaatar" ["Astana"; "Bishkek"; "Tashkent"] None;
    Question "In computing, what does RAID stand for?"
      "Redundant Array of Independent Disks" ["Random Access Internal Drive"; "Rapid Array of Integrated Data"; "Recoverable Archive of Internal Disks"] None;
    Question "What is the longest bone in the human body?"
      "Femur" ["Tibia"; "Humerus"; "Fibula"] None;
    Question "Which artist cut off part of his own ear?"
      "Vincent van Gogh" ["Pablo Picasso"; "Claude Monet"; "Salvador Dali"] None;
    Question "What is the most abundant element in the universe?"
      "Hydrogen" ["Helium"; "Oxygen"; "Carbon"] None;
    Question "In what year did the Berlin Wall fall?"
      "1989" ["1987"; "1991"; "1985"] None;
    Question "What is the only mammal capable of true flight?"
      "Bat" ["Flying Squirrel"; "Sugar Glider"; "Colugo"] None;
    Question "What language has the most native speakers?"
      "Mandarin Chinese" ["English"; "Spanish"; "Hindi"] None
  ].

(** The dictionary literal [{"easy": FALLBACK_EASY, "medium": FALLBACK_MEDIUM,
    "hard": FALLBACK_HARD}] of [prefetch_trivia] and [get_trivia_question]. *)
Definition fallback_bank : gmap string (list question) :=
  list_to_map
    [ ("easy", FALLBACK_EASY); ("medium", FALLBACK_MEDIUM); ("hard", FALLBACK_HARD) ].

(** ** TriviaCache and ExternalFetcher *)

Definition TRIVIA_FETCH_DELAY : Q := 6.
Definition TRIVIA_MIN_CACHE : Z := 10.

(** [trivia_cache.get(difficulty, [])] *)
Definition cache_get (difficulty : string) : Py (list question) :=
  cache <- gets trivia_cache ;; ret (default [] (cache !! difficulty)).

(** [trivia_cache[difficulty] = pool] *)
Definition cache_set (difficulty : string) (pool : list question) : Py unit :=
  modify (λ w, set_trivia_cache (<[difficulty := pool]> (trivia_cache w)) w).

(** [json.dump(trivia_cache, f)], with its [except Exception] around it. *)
Definition save_trivia_cache : Py unit := λ w,
  if disk_writable w
  then (Return (), set_trivia_cache_file (Some (trivia_cache w)) w)
  else (Return (), w).

(** The two [except] clauses of [fetch_trivia_from_api]. *)
Definition fetch_handlers (e : exn) : Py (list question) :=
  match e with
  | HTTPError _ =>
    now <- time_time ;;
    modify (set_last_fetch_time (float_add now 10)) ;;
    ret []
  | _ => ret []
  end.

Section Fetcher.

(** [html.unescape] is a function on strings; nothing more is used of it. *)
Variable html_unescape : string → string.

(** The dictionary built for one item of ["results"]. *)
Definition parse_question (q : raw_question) : Py question :=
  text <- json_getitem "question" (raw_text q) ;;
  correct <- json_getitem "correct_answer" (raw_correct q) ;;
  incorrect <- json_getitem "incorrect_answers" (raw_incorrect q) ;;
  ret (Question (html_unescape text) (html_unescape correct)
                (html_unescape <$> incorrect)
                (Some (html_unescape (default "General" (raw_category q))))).

(** The body of the [try] block of [fetch_trivia_from_api]. *)
Definition fetch_attempt (difficulty : string) (amount : Z) : Py (list question) :=
  resp <- urlopen difficulty amount ;;
  now <- time_time ;;
  modify (set_last_fetch_time now) ;;
  match resp with
  | NotJson => raise JSONDecodeError
  | NotObject => raise AttributeError
  | Object response_code results =>
    if bool_decide (response_code = Some 0) then
      for_each (default [] results)
               (λ q questions, item <- parse_question q ;; ret (questions ++ [item]))
               []
    else if bool_decide (response_code = Some 5) then
      now <- time_time ;;
      modify (set_last_fetch_time (float_add now 10)) ;;
      ret []
    else ret []
  end.

Definition fetch_trivia_from_api (difficulty : string) (amount : Z)
  : Py (list question) :=
  now <- time_time ;;
  last <- gets last_fetch_time ;;
  let wait := float_sub TRIVIA_FETCH_DELAY (float_sub now last) in
  (if Qltb 0 wait then time_sleep wait else ret ()) ;;
  try_except (fetch_attempt difficulty amount) fetch_handlers.

(** Lines 444-459 of [prefetch_trivia]: what is done with the fetched
    [questions] of one tier. *)
Definition merge_fetched (difficulty : string) (questions : list question)
  : Py unit :=
  match questions with
  | _ :: _ =>
    pool <- cache_get difficulty ;;
    let existing_qs : gset string := list_to_set (question_text <$> pool) in
    let new_qs := filter (λ q, question_text q ∉ existing_qs) questions in
    pool <- cache_get difficulty ;;
    cache_set difficulty (pool ++ new_qs)
  | [] =>
    fallback <- py_dict_getitem fallback_bank difficulty ;;
    pool <- cache_get difficulty ;;
    (if len pool <? len fallback then
       let existing_qs : gset string := list_to_set (question_text <$> pool) in
       let new_fb := filter (λ q, question_text q ∉ existing_qs) fallback in
       pool <- cache_get difficulty ;;
       cache_set difficulty (pool ++ new_fb)
     else ret ()) ;;
    cache <- gets trivia_cache ;;
    _ <- py_dict_getitem cache difficulty ;;
    ret ()
  end.

Definition prefetch_trivia : Py unit :=
  for_each_ [("easy", FALLBACK_EASY); ("medium", FALLBACK_MEDIUM); ("hard", FALLBACK_HARD)]
    (λ '(diff, fallback),
       pool <- cache_get diff ;;
       if len pool <? TRIVIA_MIN_CACHE then cache_set diff fallback else ret ()) ;;
  for_each_ ["easy"; "medium"; "hard"]
    (λ difficulty,
       pool <- cache_get difficulty ;;
       if 30 <=? len pool then ret ()
       else
         questions <- fetch_trivia_from_api difficulty 30 ;;
         merge_fetched difficulty questions ;;
         time_sleep TRIVIA_FETCH_DELAY) ;;
  save_trivia_cache.

End Fetcher.

(** *** [random.shuffle] and [random.sample]

    Both follow CPython's [Lib/random.py].  The shuffle is the Fisher-Yates
    loop.  The sample has two loops: for a population that is small beside
    the requested size it selects from a copy of the population, moving
    the last live item into the cell it took; for a larger one it draws
    positions of the population itself and keeps the set of those it has
    taken, drawing again whenever it meets one of them. *)

Definition shuffle_step {A} (i : Z) (x : list A) : Py (list A) :=
  j <- randbelow (i + 1) ;;
  xj <- py_getitem x j ;;
  xi <- py_getitem x i ;;
  x <- py_setitem x i xj ;;
  py_setitem x j xi.

Definition random_shuffle {A} (x : list A) : Py (list A) :=
  for_each (range_down (len x - 1) 0) shuffle_step x.

(** One iteration of the loop over the copy [pool]:
    [j = randbelow(n - i); result[i] = pool[j]; pool[j] = pool[n - i - 1]]. *)
Definition sample_step {A} (n i : Z) (acc : list A * list A)
  : Py (list A * list A) :=
  let '(result, pool) := acc in
  j <- randbelow (n - i) ;;
  chosen <- py_getitem pool j ;;
  last <- py_getitem pool (n - i - 1) ;;
  pool <- py_setitem pool j last ;;
  ret (result ++ [chosen], pool).

(** [while j in selected: j = randbelow(n)].  The source puts no bound on
    this loop.  On a tape of [t] words it can draw the [t] words and then
    draws zeros for ever, so the draw that follows the last word tells
    whether it ever ends: the caller gives [t + 1] rounds, and running out
    of them is the loop that never ends. *)
Fixpoint redraw (rounds : nat) (n j : Z) (selected : gset Z) : Py Z :=
  if bool_decide (j ∈ selected) then
    match rounds with
    | O => diverge
    | S rounds' => j <- randbelow n ;; redraw rounds' n j selected
    end
  else ret j.

(** One iteration of the loop over the set of taken positions:
    [j = randbelow(n)], the redraw loop, [selected_add(j)] and
    [result[i] = population[j]]. *)
Definition select_step {A} (population : list A) (n i : Z)
    (acc : list A * gset Z) : Py (list A * gset Z) :=
  let '(result, selected) := acc in
  j <- randbelow n ;;
  tape <- gets rng ;;
  j <- redraw (S (length tape)) n j selected ;;
  chosen <- py_getitem population j ;;
  ret (result ++ [chosen], {[j]} ∪ selected).

(** The positions the generator offers for a population of [n] items:
    those of the words of the tape, then zero. *)
Definition offered (n : Z) (tape : list N) : list Z :=
  (λ r, Z.of_N r mod n) <$> (tape ++ [0%N]).

(** The positions of a sequence in the order in which they first appear,
    those of [seen] left out. *)
Fixpoint fresh_positions (seen : gset Z) (s : list Z) : list Z :=
  match s with
  | [] => []
  | j :: s' =>
    if bool_decide (j ∈ seen) then fresh_positions seen s'
    else j :: fresh_positions ({[j]} ∪ seen) s'
  end.

(** The distinct positions the generator of [w] offers, in the order of
    their first draw. *)
Definition distinct_draws (n : Z) (w : world) : list Z :=
  fresh_positions ∅ (offered n (rng w)).

(** The items of [l] at the positions [js]. *)
Definition items_at {A} (l : list A) (js : list Z) (xs : list A) : Prop :=
  Forall2 (λ j x, 0 ≤ j ∧ l !! Z.to_nat j = Some x) js xs.

(** The view built for one selected question. *)
Definition format_question (q : question) : Py question_view :=
  answers <- random_shuffle (incorrect_answers q ++ [correct_answer q]) ;;
  ret (QuestionView (question_text q) answers (correct_answer q)
                    (default "General" (category q))).

Section Sampling.

(** [_ceil(_log(m, 4))], which [random.sample] computes in floating point
    to size its set; nothing is used of its value. *)
Variable ceil_log4 : Z → Z.

(** [setsize = 21; if k > 5: setsize += 4 ** _ceil(_log(k * 3, 4))] *)
Definition setsize (k : Z) : Z :=
  if 5 <? k then 21 + 4 ^ ceil_log4 (k * 3) else 21.

Definition random_sample {A} (population : list A) (k : Z) : Py (list A) :=
  let n := len population in
  if (k <? 0) || (n <? k) then raise ValueError
  else if n <=? setsize k then
    acc <- for_each (seqZ 0 k) (sample_step n) ([], population) ;;
    ret acc.1
  else
    acc <- for_each (seqZ 0 k) (select_step population n) ([], ∅) ;;
    ret acc.1.

(** The selection [get_trivia_question] makes among a pool is sure to end:
    it is the shuffle or the loop over the copy, which are bounded, or
    the generator offers [count] distinct positions to the redraw loop. *)
Definition selection_ends {A} (pool : list A) (count : Z) (w : world) : Prop :=
  len pool ≤ count
  ∨ len pool ≤ setsize count
  ∨ count ≤ len (distinct_draws (len pool) w).

(** *** [get_trivia_question] *)

Definition get_trivia_question (difficulty : string) (count : Z)
  : Py (list question_view) :=
  pool <- cache_get difficulty ;;
  pool <- (match pool with
           | [] =>
             let pool := default FALLBACK_EASY (fallback_bank !! difficulty) in
             cache_set difficulty pool ;;
             ret pool
           | _ :: _ => ret pool
           end) ;;
  selected <- (if len pool <=? count then random_shuffle pool
               else random_sample pool count) ;;
  for_each selected
           (λ q result, view <- format_question q ;; ret (result ++ [view]))
           [].


End Sampling.

(** The least [e] with [m ≤ 4 ^ e], the value of [_ceil(_log(m, 4))]
    wherever the floating-point logarithm is not within a rounding error
    of an integer; that is so for every count the trivia handler lets
    through, which gives [m] between 18 and 30 and the exponent 3. *)
Definition ceil_log4_exact (m : Z) : Z := (Z.log2_up m + 1) / 2.

(** *** Vocabulary for the statements about [get_trivia_question] *)

(** [v] is a client view of the stored question [q]: same text, correct
    answer and category, and the four answers in some order. *)
Definition is_view_of (q : question) (v : question_view) : Prop :=
  view_question v = question_text q
  ∧ view_correct v = correct_answer q
  ∧ view_category v = default "General" (category q)
  ∧ view_answers v ≡ₚ incorrect_answers q ++ [correct_answer q].


(** The bank an empty pool is reseeded from. *)
Definition reseed_bank (difficulty : string) : list question :=
  default FALLBACK_EASY (fallback_bank !! difficulty).

(** The pool a call for [difficulty] samples from in [w]. *)
Definition sampled_pool (difficulty : string) (w : world) : list question :=
  match default [] (trivia_cache w !! difficulty) with
  | [] => reseed_bank difficulty
  | pool => pool
  end.

(** The world once an empty pool of [difficulty] has been reseeded. *)
Definition reseeded (difficulty : string) (w : world) : world :=
  match default [] (trivia_cache w !! difficulty) with
  | [] => set_trivia_cache (<[difficulty := reseed_bank difficulty]> (trivia_cache w)) w
  | _ => w
  end.

(** *** Vocabulary for the statements about the fetcher and the merge *)

(** The reply the next [urlopen] call meets. *)
Definition next_reply (w : world) : http_reply :=
  match net w with
  | [] => UrlError
  | (_, reply) :: _ => reply
  end.

(** The world once the spacing delay of [fetch_trivia_from_api] has been
    slept through. *)
Definition after_wait (w : world) : world :=
  let wait := float_sub TRIVIA_FETCH_DELAY
                        (float_sub (clock w) (last_fetch_time w)) in
  if Qltb 0 wait then set_clock (clock w + wait)%Q w else w.

(** An item of ["results"] that has the three keys read with [q[...]]. *)
Definition well_formed (q : raw_question) : Prop :=
  is_Some (raw_text q) ∧ is_Some (raw_correct q) ∧ is_Some (raw_incorrect q).

(** The question built from a well-formed item. *)
Definition unescaped (html_unescape : string → string) (q : raw_question)
  : question :=
  Question (html_unescape (default "" (raw_text q)))
           (html_unescape (default "" (raw_correct q)))
           (html_unescape <$> default [] (raw_incorrect q))
           (Some (html_unescape (default "General" (raw_category q)))).

(** [q]'s text is not among the texts of [pool]. *)
Definition fresh_for (pool : list question) (q : question) : Prop :=
  question_text q ∉ (question_text <$> pool).

Global Instance fresh_for_dec pool q : Decision (fresh_for pool q).
Proof. unfold fresh_for. apply _. Defined.

(** The world in which the pool of [difficulty] is [pool]. *)
Definition with_pool (difficulty : string) (pool : list question) (w : world)
  : world :=
  set_trivia_cache (<[difficulty := pool]> (trivia_cache w)) w.

(** ** LeaderboardCache *)

(** [load_db()]: the parsed file, or the empty database when the file is
    missing or unreadable. *)
Definition load_db : Py database :=
  file <- gets db_file ;;
  ret (default (Database (Some [])) file).

(** [l.sort(key=...)]: Python's sort is stable, and a stable sort has one
    possible result; insertion from the right computes it. *)
Fixpoint insert_by {A} (key : A → Z) (x : A) (l : list A) : list A :=
  match l with
  | [] => [x]
  | y :: l' => if key x <=? key y then x :: y :: l' else y :: insert_by key x l'
  end.

Definition py_sort {A} (key : A → Z) (l : list A) : list A :=
  foldr (insert_by key) [] l.

(** [x.get("score", 0)] *)
Definition score (x : lb_entry) : Z := default 0 (lb_score x).

Definition refresh_leaderboard : Py unit :=
  db <- load_db ;;
  let lb := default [] (db_leaderboard db) in
  let lb := py_sort (λ x, - score x) lb in
  modify (set_cached_leaderboard (take 50 lb)).

(** The [/api/leaderboard] branch of [GreedHandler.do_GET]: the list sent
    to the client. *)
Definition api_leaderboard : Py (list lb_entry) :=
  cached <- gets cached_leaderboard ;;
  match take 20 cached with
  | [] =>
    db <- load_db ;;
    ret (take 20 (default [] (db_leaderboard db)))
  | lb => ret lb
  end.

(** *** Sample worlds *)

(** A quiet world: nothing cached, clock at zero, a short random tape. *)
Definition quiet_world : world :=
  World ∅ ∅ [] 0 0 [7%N; 1801439850948199%N; 2%N; 9007199254740991%N; 5%N] []
        None None true.

(** A session in the middle of a hard sequence, rich and on a streak. *)
Definition high_roller : game_state :=
  GameState 12 750000 6 (Some [1; 1; 0; 1; 1; 0; 1; 0; 1; 1; 0; 0; 1; 1; 0]) 3.

(** A session that has never drawn an outcome yet. *)
Definition newcomer : game_state := GameState 2 100 0 None 0.

Definition casino : world :=
  set_active_games (<["alice" := high_roller]> (<["bob" := newcomer]> ∅)) quiet_world.

(** The caches as [load_trivia_cache] initialises them. *)
Definition stocked_world : world := set_trivia_cache fallback_bank quiet_world.

Definition mars : question :=
  Question "What planet is known as the Red Planet?"
    "Mars" ["Venus"; "Jupiter"; "Saturn"] None.


(** The source is down: its only reply is an HTTP 503, one second after
    the request, in a world whose clock reads 100. *)
Definition outage_world : world :=
  World ∅ fallback_bank [] 0 100 [] [(1%Q, HttpError 503)] None None true.

(** A cache restored from a file that had twelve hard questions, while the
    source cannot be reached. *)
Definition thin_world : world :=
  set_trivia_cache (<["hard" := take 12 FALLBACK_HARD]> fallback_bank) quiet_world.

Definition ann : lb_entry := LbEntry "ann" "A" (Some 100) 0 1 0 1 0.
Definition ben : lb_entry := LbEntry "ben" "B" (Some 100) 2 3 0 1 0.
Definition cat : lb_entry := LbEntry "cat" "C" (Some 250) 1 1 0 4 0.

(** A database whose leaderboard holds two players on the same score. *)
Definition tied_world : world :=
  World ∅ ∅ [] 0 0 [] [] (Some (Database (Some [ann; ben; cat]))) None true.

(** A fetched question that no fallback bank contains. *)
Definition pluto : question :=
  Question "Which dwarf planet was reclassified in 2006?"
    "Pluto" ["Ceres"; "Eris"; "Makemake"] (Some "Science").

(** A tier seeded with five fallback questions. *)
Definition seeded_world : world :=
  set_trivia_cache {[ "easy" := take 5 FALLBACK_EASY ]} quiet_world.

(** ** More of the trivia cache: start-up and the periodic refetch *)

(** [load_trivia_cache()].  The cache file is [Some] when it exists and
    holds a JSON object of pools; it is taken as it is.  Otherwise the
    cache is initialised from the fallback banks and saved. *)
Definition load_trivia_cache : Py unit :=
  file <- gets trivia_cache_file ;;
  match file with
  | Some cached => modify (set_trivia_cache cached)
  | None =>
    modify (set_trivia_cache fallback_bank) ;;
    save_trivia_cache
  end.

Section Refetch.

Variable html_unescape : string → string.

(** One round of [refetch_thread], after its five-minute sleep: the [for]
    loop inside [try: ... except: pass]. *)
Definition refetch_pass : Py unit :=
  try_except
    (for_each_ ["easy"; "medium"; "hard"]
       (λ difficulty,
          pool <- cache_get difficulty ;;
          if len pool <? 15 then
            qs <- fetch_trivia_from_api html_unescape difficulty 20 ;;
            (match qs with
             | _ :: _ =>
               pool <- cache_get difficulty ;;
               let existing : gset string := list_to_set (question_text <$> pool) in
               let new_qs := filter (λ q, question_text q ∉ existing) qs in
               pool <- cache_get difficulty ;;
               cache_set difficulty (pool ++ new_qs) ;;
               save_trivia_cache
             | [] => ret ()
             end) ;;
            time_sleep TRIVIA_FETCH_DELAY
          else ret ()))
    (λ _, ret ()).

End Refetch.

(** ** Accounts, sessions and scores

    These functions receive the database dictionary, change it in place
    and save it with [save_db].  Each one is modelled as a function from
    the dictionary to its result, the dictionary as it leaves it, and the
    document it wrote to the file, if any.  [time.time()] is the argument
    [now]. *)

(** One item of a user's ["game_history"]. *)
Record game_record := GameRecord {
  g_score : Z;
  g_crashes : Z;
  g_streak : Z;
  g_time : Q;
  g_level : Z }.

(** A user dictionary.  [update_score] reads the counters with
    [user.get(key, default)], so each of them may be missing. *)
Record user := User {
  u_username : string;
  u_password_hash : string;
  u_emoji : option string;
  u_created_at : Q;
  u_high_score : option Z;
  u_total_crashes : option Z;
  u_total_games : option Z;
  u_total_wins : option Z;
  u_best_streak : option Z;
  u_total_clicks : option Z;
  u_total_cashouts : option Z;
  u_peak_level : option Z;
  u_total_play_time : option Z;
  u_last_played : option Q;
  u_game_history : option (list game_record);
  u_achievements : list string }.

Record session := Session {
  s_username : string;
  s_created_at : Q }.

(** The database document; each top-level key may be missing. *)
Record document := Document {
  users : option (gmap string user);
  sessions : option (gmap string session);
  leaderboard : option (list lb_entry) }.

(** The [extra_stats] dictionary of [update_score]. *)
Record extra_stats := ExtraStats {
  x_clicks : option Z;
  x_cashouts : option Z;
  x_level : option Z;
  x_play_time : option Z }.

(** What a call leaves: its result, the dictionary, and the document it
    saved ([None] when it saved nothing). *)
Record effect (A : Type) := Effect {
  result : A;
  db_after : document;
  saved : option document }.
Arguments Effect {A} result db_after saved.
Arguments result {A} e.
Arguments db_after {A} e.
Arguments saved {A} e.

Definition set_users (us : gmap string user) (db : document) : document :=
  Document (Some us) (sessions db) (leaderboard db).
Definition set_sessions (ss : gmap string session) (db : document) : document :=
  Document (users db) (Some ss) (leaderboard db).
Definition set_leaderboard (lb : list lb_entry) (db : document) : document :=
  Document (users db) (sessions db) (Some lb).

(** The part of the document the leaderboard cache reads. *)
Definition cache_view (db : document) : database := Database (leaderboard db).

(** [get_user(db, username)] *)
Definition get_user (db : document) (username : string) : option user :=
  default ∅ (users db) !! username.

(** A dictionary is true when it is not empty. *)
Definition extra_given (extra : option extra_stats) : bool :=
  match extra with
  | Some (ExtraStats None None None None) | None => false
  | Some _ => true
  end.

(** The counters of [user] after the game, up to the history. *)
Definition count_game (now : Q) (score crashes streak : Z)
    (extra : option extra_stats) (u : user) : user :=
  let total_games := default 0 (u_total_games u) + 1 in
  let total_crashes := default 0 (u_total_crashes u) + crashes in
  let high_score :=
    if default 0 (u_high_score u) <? score then Some score else u_high_score u in
  let best_streak :=
    if default 0 (u_best_streak u) <? streak then Some streak else u_best_streak u in
  let total_wins :=
    if 1000000 <=? score then Some (default 0 (u_total_wins u) + 1)
    else u_total_wins u in
  let x := default (ExtraStats None None None None) extra in
  let given := extra_given extra in
  let history :=
    default [] (u_game_history u)
    ++ [GameRecord score crashes streak now
          (if given then default 0 (x_level x) else 0)] in
  User (u_username u) (u_password_hash u) (u_emoji u) (u_created_at u)
       high_score (Some total_crashes) (Some total_games) total_wins best_streak
       (if given then Some (default 0 (u_total_clicks u) + default 0 (x_clicks x))
        else u_total_clicks u)
       (if given then Some (default 0 (u_total_cashouts u) + default 0 (x_cashouts x))
        else u_total_cashouts u)
       (if given then Some (Z.max (default 0 (u_peak_level u)) (default 0 (x_level x)))
        else u_peak_level u)
       (if given then Some (default 0 (u_total_play_time u) + default 0 (x_play_time x))
        else u_total_play_time u)
       (if given then Some now else u_last_played u)
       (Some (drop (length history - 20) history))
       (u_achievements u).

(** The leaderboard row built for [user]. *)
Definition leaderboard_row (now : Q) (username : string)
    (score crashes : Z) (u : user) : lb_entry :=
  LbEntry username
          (default "😀" (u_emoji u))
          (Some (default score (u_high_score u)))
          (default crashes (u_total_crashes u))
          (default 1 (u_total_games u))
          (default 0 (u_total_wins u))
          (default 0 (u_best_streak u))
          now.

(** [l.sort(key=lambda x: -x["score"])]: a row without a score makes the
    key function raise before anything is moved. *)
Definition sort_by_stored_score (l : list lb_entry) : option (list lb_entry) :=
  if forallb (λ x, bool_decide (is_Some (lb_score x))) l
  then Some (py_sort (λ x, - score x) l)
  else None.

Definition update_score (now : Q) (db : document) (username : string)
    (score crashes streak : Z) (extra : option extra_stats)
  : effect (outcome unit) :=
  match get_user db username with
  | None => Effect (Return ()) db None
  | Some u =>
    let u := count_game now score crashes streak extra u in
    let db := set_users (<[username := u]> (default ∅ (users db))) db in
    let lb := default [] (leaderboard db) in
    let filtered_lb :=
      filter (λ entry, lb_username entry ≠ username) lb
      ++ [leaderboard_row now username score crashes u] in
    match sort_by_stored_score filtered_lb with
    | None => Effect (Raise (KeyError "score")) db None
    | Some sorted =>
      let db := set_leaderboard (take 100 sorted) db in
      Effect (Return ()) db (Some db)
    end
  end.

(** [create_session(db, username)]; [token] is the string of the UUID
    drawn for the session. *)
Definition create_session (now : Q) (token : string) (db : document)
    (username : string) : effect string :=
  let db :=
    set_sessions (<[token := Session username now]> (default ∅ (sessions db))) db in
  Effect token db (Some db).

(** [get_session_user(db, token)] *)
Definition get_session_user (now : Q) (db : document) (token : string)
  : effect (option string) :=
  match default ∅ (sessions db) !! token with
  | None => Effect None db None
  | Some sess =>
    if Qltb 86400 (float_sub now (s_created_at sess)) then
      let db := set_sessions (delete token (default ∅ (sessions db))) db in
      Effect None db (Some db)
    else Effect (Some (s_username sess)) db None
  end.

Section Passwords.

(** [hashlib.sha256(password.encode()).hexdigest()] *)
Variable sha256_hex : string → string.



End Passwords.

(** *** Vocabulary for the statements about the refill tasks *)

(** Each of the three tiers has a pool of at least [n] questions. *)
Definition well_stocked (n : Z) (w : world) : Prop :=
  ∀ d, d ∈ ["easy"; "medium"; "hard"] →
       ∃ pool, trivia_cache w !! d = Some pool ∧ n ≤ len pool.

(** The pools of [w'] extend those of [w]. *)
Definition grown (w w' : world) : Prop :=
  ∀ d pool, trivia_cache w !! d = Some pool →
            ∃ added, trivia_cache w' !! d = Some (pool ++ added).

(** The question texts of a pool. *)
Definition texts (pool : list question) : list string := question_text <$> pool.

(** *** Vocabulary for the statements about the outcome engine *)

(** A sequence of ticks: zeros and ones. *)
Definition ticks (pat : list Z) : Prop := Forall (λ x, x = 0 ∨ x = 1) pat.

(** A session state the engine can go on from: the cursor is not negative
    and, when a sequence is stored, it is a sequence of ticks that the
    cursor has not overrun. *)
Definition sane (s : game_state) : Prop :=
  0 ≤ pattern_pos s
  ∧ ∀ pat, pattern s = Some pat → pattern_pos s ≤ len pat ∧ ticks pat.

(** The stored leaderboard a refresh reads. *)
Definition stored_leaderboard (w : world) : list lb_entry :=
  default [] (db_leaderboard (default (Database (Some [])) (db_file w))).

(** A session whose cursor lies before the start of its sequence. *)
Definition broken_cursor : game_state := GameState 1 0 0 (Some [1; 0; 1]) (-4).

(** A world whose cache file was written by an earlier run. *)
Definition restart_world : world :=
  World ∅ ∅ [] 0 0 [] [] None (Some {[ "easy" := [mars; pluto] ]}) true.

(** A database whose leaderboard is already in ranking order. *)
Definition ranked_world : world :=
  World ∅ ∅ [] 0 0 [] [] (Some (Database (Some [cat; ann; ben]))) None true.

(** *** Vocabulary for the statements about scores *)

(** Every row carries a score. *)
Definition all_scored (lb : list lb_entry) : Prop :=
  Forall (λ x, is_Some (lb_score x)) lb.


(** A registered player and a database that knows her. *)
Definition ann_account : user :=
  User "ann" "5e88" (Some "A") 0 (Some 100) (Some 0) (Some 1) (Some 0) (Some 1)
       (Some 0) (Some 0) (Some 0) (Some 0) (Some 0%Q) (Some []) [].

Definition site : document :=
  Document (Some {[ "ann" := ann_account ]}) (Some ∅) (Some [cat; ann; ben]).

(** A row written without a score. *)
Definition eve : lb_entry := LbEntry "eve" "E" None 0 1 0 0 0.

Definition site_with_scoreless_row : document :=
  Document (Some {[ "ann" := ann_account ]}) (Some ∅) (Some [cat; eve; ann]).

(** The database after ann's game of 300 points, and a world whose
    database file is that document. *)
Definition site_after_game : document :=
  db_after (update_score 7 site "ann" 300 1 2 None).

Definition site_reloaded : world :=
  World ∅ ∅ [] 0 0 [] [] (Some (cache_view site_after_game)) None true.

(** Every tier holds thirty questions or more. *)
Definition full_world : world :=
  set_trivia_cache
    (list_to_map [ ("easy", FALLBACK_EASY);
                   ("medium", FALLBACK_MEDIUM ++ FALLBACK_HARD);
                   ("hard", FALLBACK_HARD ++ FALLBACK_MEDIUM) ])
    (World ∅ ∅ [] 0 0 [] [(2%Q, UrlError)] None None true).

(** * Proofs *)

(** ** The monad *)

Lemma bind_Return {A B} (m : Py A) (k : A → Py B) w a w' :
  m w = (Return a, w') → bind m k w = k a w'.
Proof. intros H. unfold bind. by rewrite H. Qed.

Lemma bind_Raise {A B} (m : Py A) (k : A → Py B) w e w' :
  m w = (Raise e, w') → bind m k w = (Raise e, w').
Proof. intros H. unfold bind. by rewrite H. Qed.

Lemma bind_Diverges {A B} (m : Py A) (k : A → Py B) w w' :
  m w = (Diverges, w') → bind m k w = (Diverges, w').
Proof. intros H. unfold bind. by rewrite H. Qed.

Lemma bind_inv {A B} (m : Py A) (k : A → Py B) w b w' :
  bind m k w = (Return b, w') →
  ∃ a w1, m w = (Return a, w1) ∧ k a w1 = (Return b, w').
Proof.
  unfold bind. destruct (m w) as [[a|e|] w1]; [eauto | discriminate | discriminate].
Qed.

(** ** Rationals *)

Lemma Qltb_lt a b : Qltb a b = true ↔ (a < b)%Q.
Proof.
  unfold Qltb. rewrite negb_true_iff, <- not_true_iff_false, Qle_bool_iff.
  split; [apply Qnot_le_lt | apply Qlt_not_le].
Qed.

Lemma Qltb_nlt a b : Qltb a b = false ↔ ¬ (a < b)%Q.
Proof. rewrite <- Qltb_lt. by destruct (Qltb a b). Qed.

Lemma Qltb_ext a b c : ((a < b)%Q ↔ (a < c)%Q) → Qltb a b = Qltb a c.
Proof.
  intros H. destruct (Qltb a c) eqn:Hc.
  - apply Qltb_lt, H, Qltb_lt, Hc.
  - apply Qltb_nlt. intros Hb%H. by apply Qltb_nlt in Hc.
Qed.

Lemma pow_2_53 : (2 ^ 53)%positive = 9007199254740992%positive.
Proof. vm_compute. reflexivity. Qed.

(** Which multiples of 2^-53 lie below each threshold, decimal or double.
    Out of the 2^53 equally likely draws, those below 0.2, 0.15 and 0.1 are
    20%, 15% and 10% of them, up to 2^-53. *)
Lemma draw_below (k : Z) :
  (((k # 2 ^ 53) < 0.2)%Q ↔ k < 1801439850948199)
  ∧ (((k # 2 ^ 53) < double_0_2)%Q ↔ k < 1801439850948199)
  ∧ (((k # 2 ^ 53) < 0.15)%Q ↔ k < 1351079888211149)
  ∧ (((k # 2 ^ 53) < double_0_15)%Q ↔ k < 1351079888211149)
  ∧ (((k # 2 ^ 53) < 0.1)%Q ↔ k < 900719925474100)
  ∧ (((k # 2 ^ 53) < double_0_1)%Q ↔ k < 900719925474100).
Proof.
  rewrite pow_2_53. unfold Qlt, double_0_2, double_0_15, double_0_1.
  cbn [Qnum Qden].
  split; [|split; [|split; [|split; [|split]]]].
  all: split; intros H.
  all: lia.
Qed.

Lemma decimal_thresholds_are_exact (k : Z) :
  let u := (k # 2 ^ 53)%Q in
  Qltb u 0.2 = Qltb u double_0_2
  ∧ Qltb u 0.15 = Qltb u double_0_15
  ∧ Qltb u 0.1 = Qltb u double_0_1.
Proof.
  cbv zeta. destruct (draw_below k) as (H1 & H2 & H3 & H4 & H5 & H6).
  split; [|split]; apply Qltb_ext.
  - by rewrite H1, H2.
  - by rewrite H3, H4.
  - by rewrite H5, H6.
Qed.

(** ** Worlds that differ in the generator only *)

Definition rng_step (w w' : world) : Prop := ∃ g, w' = set_rng g w.

Lemma rng_step_refl w : rng_step w w.
Proof. exists (rng w). by destruct w. Qed.

Lemma rng_step_trans w1 w2 w3 : rng_step w1 w2 → rng_step w2 w3 → rng_step w1 w3.
Proof. intros [g ->] [g' ->]. by exists g'. Qed.

Lemma next_raw_step w : ∃ r w', next_raw w = (Return r, w') ∧ rng_step w w'.
Proof. eexists _, _. split; [done|]. by eexists. Qed.

Lemma random_random_step w :
  ∃ u w', random_random w = (Return u, w') ∧ rng_step w w'.
Proof. eexists _, _. split; [done|]. by eexists. Qed.

Lemma randbelow_step n w :
  0 < n → ∃ r w', randbelow n w = (Return r, w') ∧ rng_step w w' ∧ 0 ≤ r < n.
Proof.
  intros Hn. eexists _, _. split; [done|]. split; [by eexists|].
  by apply Z.mod_pos_bound.
Qed.

Lemma randint_step a b w :
  a ≤ b → ∃ r w', randint a b w = (Return r, w') ∧ rng_step w w' ∧ a ≤ r ≤ b.
Proof.
  intros Hab. destruct (randbelow_step (b - a + 1) w) as (r & w' & Hr & Hw & Hb); [lia|].
  exists (a + r), w'. split; [|split; [done | lia]].
  unfold randint. by rewrite (bind_Return _ _ _ _ _ Hr).
Qed.

(** ** Indexing *)

Lemma py_getitem_in_range {A} (l : list A) i w :
  0 ≤ i < Z.of_nat (length l) →
  ∃ x, l !! Z.to_nat i = Some x ∧ py_getitem l i w = (Return x, w).
Proof.
  intros Hi. unfold py_getitem.
  destruct (Z.ltb_spec i 0); [lia|].
  destruct (Z.ltb_spec i 0); [lia|].
  destruct (Z.leb_spec (Z.of_nat (length l)) i); [lia|]. simpl.
  destruct (lookup_lt_is_Some_2 l (Z.to_nat i)) as [x Hx]; [lia|].
  exists x. by rewrite Hx.
Qed.

Lemma py_setitem_in_range {A} (l : list A) i x w :
  0 ≤ i < Z.of_nat (length l) →
  py_setitem l i x w = (Return (<[Z.to_nat i := x]> l), w).
Proof.
  intros Hi. unfold py_setitem.
  destruct (Z.ltb_spec i 0); [lia|].
  destruct (Z.ltb_spec i 0); [lia|].
  by destruct (Z.leb_spec (Z.of_nat (length l)) i); [lia|].
Qed.

(** Exchanging two cells of a list permutes it. *)
Lemma insert_Permutation {A} (l : list A) i x :
  (i < length l)%nat → <[i := x]> l ≡ₚ x :: delete i l.
Proof.
  revert i. induction l as [|a l IH]; intros [|i] Hi; simpl in *; try lia.
  - done.
  - rewrite (IH i) by lia. apply Permutation_swap.
Qed.

Lemma swap_Permutation {A} (l : list A) i j x y :
  l !! i = Some y → l !! j = Some x → <[j := y]> (<[i := x]> l) ≡ₚ l.
Proof.
  revert i j. induction l as [|a l IH]; intros [|i] [|j] Hi Hj;
    simplify_eq/=; try done.
  - rewrite insert_Permutation by (by eapply lookup_lt_Some).
    etrans; [apply Permutation_swap|]. f_equiv.
    symmetry. by apply delete_Permutation.
  - rewrite insert_Permutation by (by eapply lookup_lt_Some).
    etrans; [apply Permutation_swap|]. f_equiv.
    symmetry. by apply delete_Permutation.
  - f_equiv. by apply IH.
Qed.

(** ** The pattern generator *)

Lemma range_down_bounds start stop i :
  i ∈ range_down start stop → stop < i ≤ start.
Proof.
  unfold range_down. rewrite elem_of_reverse, elem_of_seqZ. lia.
Qed.

Lemma perturb_step_spec i pat w :
  0 < i < Z.of_nat (length pat) →
  ∃ pat' w', perturb_step i pat w = (Return pat', w') ∧ rng_step w w' ∧ pat' ≡ₚ pat.
Proof.
  intros Hi. unfold perturb_step.
  destruct (random_random_step w) as (u & w1 & Hu & Hw1).
  rewrite (bind_Return _ _ _ _ _ Hu).
  destruct (Qltb u 0.2); [|by exists pat, w1].
  destruct (randint_step 1 3 w1) as (k & w2 & Hk & Hw2 & Hkb); [lia|].
  rewrite (bind_Return _ _ _ _ _ Hk).
  assert (Hj : 0 ≤ Z.max 0 (i - k) < Z.of_nat (length pat)) by lia.
  destruct (py_getitem_in_range pat _ w2 Hj) as (x & Hx & Hgx).
  rewrite (bind_Return _ _ _ _ _ Hgx).
  destruct (py_getitem_in_range pat i w2) as (y & Hy & Hgy); [lia|].
  rewrite (bind_Return _ _ _ _ _ Hgy).
  rewrite (bind_Return _ _ _ _ _ (py_setitem_in_range pat i x w2 ltac:(lia))).
  rewrite py_setitem_in_range by (rewrite length_insert; lia).
  eexists _, w2. split; [done|]. split; [by eapply rng_step_trans|].
  by apply swap_Permutation.
Qed.

(** A loop over in-range indices whose every step permutes the list
    permutes the list. *)
Lemma permuting_loop {A} (step : Z → list A → Py (list A)) (idx : list Z) x w :
  (∀ i y v, 0 < i < len y →
     ∃ y' v', step i y v = (Return y', v') ∧ rng_step v v' ∧ y' ≡ₚ y) →
  (∀ i, i ∈ idx → 0 < i < len x) →
  ∃ x' w', for_each idx step x w = (Return x', w') ∧ rng_step w w' ∧ x' ≡ₚ x.
Proof.
  intros Hstep. revert x w.
  induction idx as [|i idx IH]; intros x w Hidx; simpl.
  - exists x, w. split; [done|]. split; [apply rng_step_refl | done].
  - destruct (Hstep i x w) as (x1 & w1 & H1 & Hw1 & Hp1).
    { apply Hidx. left. }
    rewrite (bind_Return _ _ _ _ _ H1).
    destruct (IH x1 w1) as (x2 & w2 & H2 & Hw2 & Hp2).
    { intros j Hj. unfold len. rewrite (Permutation_length Hp1).
      apply Hidx. by right. }
    exists x2, w2. split; [done|]. split; [by eapply rng_step_trans|].
    by rewrite Hp2.
Qed.

Lemma perturb_spec pat w :
  ∃ pat' w', perturb pat w = (Return pat', w') ∧ rng_step w w' ∧ pat' ≡ₚ pat.
Proof.
  apply permuting_loop; [apply perturb_step_spec|].
  intros i Hi%range_down_bounds. unfold len. lia.
Qed.

Lemma template_for_spec level w :
  template_for level w = (Return (bias_template (tier_of_level level)), w).
Proof.
  unfold template_for, tier_of_level.
  destruct (Z.leb_spec level 4); [by rewrite decide_True by lia|].
  rewrite decide_False by lia.
  destruct (Z.leb_spec level 10); [by rewrite decide_True by lia|].
  rewrite decide_False by lia.
  destruct (Z.leb_spec level 16); [by rewrite decide_True by lia|].
  by rewrite decide_False by lia.
Qed.

Lemma bias_template_length t : length (bias_template t) = 15%nat.
Proof. by destruct t. Qed.

Lemma generate_pattern_spec level w :
  ∃ pat w', generate_pattern level w = (Return pat, w') ∧ rng_step w w'
            ∧ pat ≡ₚ bias_template (tier_of_level level).
Proof.
  unfold generate_pattern.
  rewrite (bind_Return _ _ _ _ _ (template_for_spec level w)).
  apply perturb_spec.
Qed.

(** C10.  For every level and every behaviour of the random generator,
    [generate_pattern] returns a rearrangement of the template selected for
    the level: the result has 15 elements, is a permutation of the template
    (same multiset of 0s and 1s) and so has exactly the template's number of
    wins; nothing but the generator changes in the world. *)
Theorem generate_pattern_permutes_template level w :
  ∃ pat w',
    generate_pattern level w = (Return pat, w')
    ∧ rng_step w w'
    ∧ pat ≡ₚ bias_template (tier_of_level level)
    ∧ length pat = 15%nat
    ∧ wins pat = wins (bias_template (tier_of_level level)).
Proof.
  destruct (generate_pattern_spec level w) as (pat & w' & Hg & Hw & Hp).
  exists pat, w'. repeat split; try done.
  - by rewrite (Permutation_length Hp), bias_template_length.
  - unfold wins. by rewrite Hp.
Qed.

(** ** The outcome engine *)

Lemma corrective_rules_spec x st w :
  corrective_rules x st w =
    if (x =? 1) && Qltb 500000 (money st) then
      (Return (if Qltb (next_draw w) 0.15 then 0 else x), set_rng (tail (rng w)) w)
    else if (x =? 0) && (5 <=? streak st) then
      (Return (if Qltb (next_draw w) 0.1 then 1 else x), set_rng (tail (rng w)) w)
    else (Return x, w).
Proof.
  unfold corrective_rules, and_then.
  destruct (Z.eqb_spec x 1) as [->|H1]; simpl.
  - destruct (Qltb 500000 (money st)); simpl; [|done].
    unfold bind, random_random, next_raw, ret, next_draw; simpl.
    by destruct (Qltb _ 0.15).
  - destruct ((x =? 0) && (5 <=? streak st)); simpl; [|done].
    unfold bind, random_random, next_raw, ret, next_draw; simpl.
    by destruct (Qltb _ 0.1).
Qed.

Lemma with_game_twice token s1 s2 w :
  with_game token s2 (with_game token s1 w) = with_game token s2 w.
Proof. unfold with_game, set_active_games; simpl. by rewrite insert_insert_eq. Qed.

Lemma rng_step_games w w' : rng_step w w' → active_games w' = active_games w.
Proof. by intros [g ->]. Qed.

Lemma get_next_outcome_fresh token st w :
  active_games w !! token = Some st → exhausted st = true →
  ∃ pat w1 x,
    generate_pattern (level st) w = (Return pat, w1)
    ∧ pat !! 0%nat = Some x
    ∧ get_next_outcome token w =
        corrective_rules x (GameState (level st) (money st) (streak st) (Some pat) 0)
          (with_game token (GameState (level st) (money st) (streak st) (Some pat) 1) w1).
Proof.
  intros Hst Hex.
  destruct (generate_pattern_spec (level st) w) as (pat & w1 & Hg & Hw & Hp).
  pose proof (Permutation_length Hp) as Hlen.
  rewrite bias_template_length in Hlen.
  destruct pat as [|x pat]; [done|].
  exists (x :: pat), w1, x. split; [done|]. split; [done|].
  unfold get_next_outcome.
  rewrite (bind_Return (gets active_games) _ w (active_games w) w eq_refl).
  rewrite Hst, Hex.
  unfold bind. rewrite Hg. simpl.
  unfold with_game, set_active_games, set_pattern_pos, set_pattern; simpl.
  by rewrite insert_insert_eq.
Qed.

Lemma get_next_outcome_cursor token st pat w :
  active_games w !! token = Some st → pattern st = Some pat →
  0 ≤ pattern_pos st < Z.of_nat (length pat) →
  ∃ x,
    pat !! Z.to_nat (pattern_pos st) = Some x
    ∧ get_next_outcome token w =
        corrective_rules x st
          (with_game token (set_pattern_pos (pattern_pos st + 1) st) w).
Proof.
  intros Hst Hpat Hpos.
  destruct (py_getitem_in_range pat (pattern_pos st) w Hpos) as (x & Hx & Hgx).
  exists x. split; [done|].
  unfold get_next_outcome.
  rewrite (bind_Return (gets active_games) _ w (active_games w) w eq_refl).
  rewrite Hst. unfold exhausted. rewrite Hpat.
  destruct (Z.leb_spec (Z.of_nat (length pat)) (pattern_pos st)); [lia|].
  unfold bind at 1. simpl. rewrite Hpat.
  unfold bind at 1. simpl.
  rewrite (bind_Return _ _ _ _ _ Hgx).
  done.
Qed.

Lemma get_next_outcome_missing token w :
  active_games w !! token = None → get_next_outcome token w = (Return 0, w).
Proof.
  intros Hst. unfold get_next_outcome.
  rewrite (bind_Return (gets active_games) _ w (active_games w) w eq_refl).
  by rewrite Hst.
Qed.

Lemma store_game_spec token s w :
  store_game token s w = (Return (), with_game token s w).
Proof. done. Qed.

Lemma py_getitem_cases {A} (l : list A) i w :
  (∃ x, x ∈ l ∧ py_getitem l i w = (Return x, w))
  ∨ py_getitem l i w = (Raise IndexError, w).
Proof.
  unfold py_getitem.
  destruct (_ || _); [by right|].
  destruct (l !! _) as [x|] eqn:Hx; [left|by right].
  exists x. split; [by eapply list_elem_of_lookup_2 | done].
Qed.

Lemma get_next_outcome_present token st pat w :
  active_games w !! token = Some st → pattern st = Some pat →
  pattern_pos st < Z.of_nat (length pat) →
  get_next_outcome token w =
    (result <- py_getitem pat (pattern_pos st) ;;
     store_game token (set_pattern_pos (pattern_pos st + 1) st) ;;
     corrective_rules result st) w.
Proof.
  intros Hst Hpat Hpos. unfold get_next_outcome.
  rewrite (bind_Return (gets active_games) _ w (active_games w) w eq_refl).
  rewrite Hst. unfold exhausted. rewrite Hpat.
  destruct (Z.leb_spec (Z.of_nat (length pat)) (pattern_pos st)); [lia|].
  unfold bind at 1. simpl. rewrite Hpat.
  by unfold bind at 1.
Qed.

Lemma exhausted_false st :
  exhausted st = false →
  ∃ pat, pattern st = Some pat ∧ pattern_pos st < Z.of_nat (length pat).
Proof.
  unfold exhausted. destruct (pattern st) as [pat|]; [|done].
  intros H%Z.leb_gt. by exists pat.
Qed.

Lemma corrective_rules_step x st w :
  ∃ r w', corrective_rules x st w = (Return r, w') ∧ rng_step w w'.
Proof.
  rewrite corrective_rules_spec.
  repeat case_match; eexists _, _; (split; [done|]);
    (by eexists) || apply rng_step_refl.
Qed.

(** C4.  When the registry holds no state for the token, the call returns
    0 as a value (it raises nothing) and leaves the whole world, the registry
    included, exactly as it was: no entry is created for the token. *)
Theorem missing_token_is_bust token w :
  active_games w !! token = None →
  get_next_outcome token w = (Return 0, w)
  ∧ active_games (get_next_outcome token w).2 = active_games w
  ∧ active_games (get_next_outcome token w).2 !! token = None.
Proof.
  intros Hst. rewrite (get_next_outcome_missing _ _ Hst). by simpl.
Qed.

Lemma missing_token_is_bust_witness :
  get_next_outcome "carol" casino = (Return 0, casino).
Proof.
  apply (missing_token_is_bust "carol" casino). reflexivity.
Defined.

(** C5.  For a token with state, whatever the call does (return or raise),
    the world it leaves differs from the one it found only in the generator
    and in the registry entry of that token, and the entry keeps its level,
    money and streak: only the pattern and the cursor may have changed. *)
Theorem get_next_outcome_frame token st w :
  active_games w !! token = Some st →
  ∃ st' g,
    (get_next_outcome token w).2 = set_rng g (with_game token st' w)
    ∧ level st' = level st
    ∧ money st' = money st
    ∧ streak st' = streak st.
Proof.
  intros Hst.
  assert (Hid : w = set_rng (rng w) (with_game token st w)).
  { unfold with_game, set_rng, set_active_games; simpl.
    rewrite insert_id by done. by destruct w. }
  destruct (exhausted st) eqn:Hex.
  - destruct (get_next_outcome_fresh token st w Hst Hex)
      as (pat & w1 & x & Hg & _ & ->).
    destruct (generate_pattern_spec (level st) w) as (pat' & w1' & Hg' & [g1 ->] & _).
    rewrite Hg in Hg'. injection Hg' as <- ->.
    destruct (corrective_rules_step x
      (GameState (level st) (money st) (streak st) (Some pat) 0)
      (with_game token (GameState (level st) (money st) (streak st) (Some pat) 1)
         (set_rng g1 w))) as (r & w' & -> & [g2 ->]).
    by exists (GameState (level st) (money st) (streak st) (Some pat) 1), g2.
  - destruct (exhausted_false st Hex) as (pat & Hpat & Hpos).
    rewrite (get_next_outcome_present token st pat w Hst Hpat Hpos).
    destruct (py_getitem_cases pat (pattern_pos st) w) as [(x & _ & Hx)|Hx].
    + rewrite (bind_Return _ _ _ _ _ Hx).
      rewrite (bind_Return _ _ _ _ _ (store_game_spec _ _ _)).
      destruct (corrective_rules_step x st
        (with_game token (set_pattern_pos (pattern_pos st + 1) st) w))
        as (r & w' & -> & [g2 ->]).
      by exists (set_pattern_pos (pattern_pos st + 1) st), g2.
    + rewrite (bind_Raise _ _ _ _ _ Hx). by exists st, (rng w).
Qed.

Lemma get_next_outcome_frame_witness :
  ∃ st' g,
    (get_next_outcome "alice" casino).2 = set_rng g (with_game "alice" st' casino)
    ∧ level st' = 12 ∧ money st' = 750000%Q ∧ streak st' = 6.
Proof.
  apply (get_next_outcome_frame "alice" high_roller casino). reflexivity.
Defined.

(** What the two overrides do to a value [x] just read, [u] being the next
    draw of the generator. *)
Lemma corrective_rules_props x st w :
  ∃ r w',
    corrective_rules x st w = (Return r, w')
    ∧ w' = set_rng (rng w') w
    ∧ rng w' = (if ((x =? 1) && Qltb 500000 (money st))
                   || ((x =? 0) && (5 <=? streak st))
                then tail (rng w) else rng w)
    ∧ (x = 1 → (500000 < money st)%Q → (next_draw w < 0.15)%Q → r = 0)
    ∧ (x = 0 → 5 ≤ streak st → (next_draw w < 0.1)%Q → r = 1)
    ∧ (r ≠ x →
       (x = 1 ∧ (500000 < money st)%Q ∧ (next_draw w < 0.15)%Q ∧ r = 0)
       ∨ (x = 0 ∧ 5 ≤ streak st ∧ (next_draw w < 0.1)%Q ∧ r = 1)).
Proof.
  rewrite corrective_rules_spec.
  destruct (Z.eqb_spec x 1) as [->|Hx1]; simpl.
  - destruct (Qltb 500000 (money st)) eqn:Hm; simpl.
    + destruct (Qltb (next_draw w) 0.15) eqn:Hu;
        eexists _, _; (split; [done|]); simpl; repeat split; try done.
      * intros _. left. by rewrite <- !Qltb_lt.
      * intros _ _ Hu'%Qltb_lt. congruence.
    + eexists _, _; split; [done|]; simpl. split; [by destruct w|].
      repeat split; try done.
      intros _ Hm'%Qltb_lt. congruence.
  - destruct (Z.eqb_spec x 0) as [->|Hx0]; simpl.
    + destruct (Z.leb_spec 5 (streak st)); simpl.
      * destruct (Qltb (next_draw w) 0.1) eqn:Hu;
          eexists _, _; (split; [done|]); simpl; repeat split; try done.
        -- intros _. right. by rewrite <- Qltb_lt.
        -- intros _ _ Hu'%Qltb_lt. congruence.
      * eexists _, _; split; [done|]; simpl. split; [by destruct w|].
        repeat split; try done. lia.
    + eexists _, _; split; [done|]; simpl. split; [by destruct w|].
      by repeat split.
Qed.

(** C3.  The template is picked by the level thresholds (the source's
    [if]/[elif] chain agrees with [tier_of_level]: easy up to 4, medium up
    to 10, hard up to 16, brutal beyond), each of the four templates has 15
    elements, and [generate_pattern] perturbs the selected one.  The outcome
    engine reads the stored sequence through the cursor: with the cursor
    inside the sequence it reads the element under it and advances it by
    one; with no sequence, or the cursor at or past its end, it first
    stores a newly generated sequence, reads its element 0 and leaves the
    cursor at 1. *)
Theorem template_selection_and_cursor token st w :
  active_games w !! token = Some st → 0 ≤ pattern_pos st →
  (∀ lvl w0,
     template_for lvl w0 = (Return (bias_template (tier_of_level lvl)), w0)
     ∧ generate_pattern lvl w0 = perturb (bias_template (tier_of_level lvl)) w0)
  ∧ (∀ t, length (bias_template t) = 15%nat)
  ∧ ∃ pat w1 x,
      (if exhausted st
       then generate_pattern (level st) w = (Return pat, w1)
       else pattern st = Some pat ∧ w1 = w)
      ∧ let c := if exhausted st then 0 else pattern_pos st in
        pat !! Z.to_nat c = Some x
        ∧ get_next_outcome token w =
            corrective_rules x
              (GameState (level st) (money st) (streak st) (Some pat) c)
              (with_game token
                 (GameState (level st) (money st) (streak st) (Some pat) (c + 1))
                 w1).
Proof.
  intros Hst Hpos. split; [|split; [apply bias_template_length|]].
  - intros lvl w0. split; [apply template_for_spec|].
    unfold generate_pattern.
    by rewrite (bind_Return _ _ _ _ _ (template_for_spec lvl w0)).
  - destruct (exhausted st) eqn:Hex.
    + destruct (get_next_outcome_fresh token st w Hst Hex)
        as (pat & w1 & x & Hg & Hx & Hcall).
      by exists pat, w1, x.
    + destruct (exhausted_false st Hex) as (pat & Hpat & Hlt).
      destruct (get_next_outcome_cursor token st pat w Hst Hpat ltac:(lia))
        as (x & Hx & Hcall).
      exists pat, w, x. split; [done|]. split; [done|].
      rewrite Hcall. destruct st; simpl in *. by subst.
Qed.

Lemma template_selection_and_cursor_witness :
  ∃ x, [1; 1; 0; 1; 1; 0; 1; 0; 1; 1; 0; 0; 1; 1; 0] !! 3%nat = Some x
       ∧ get_next_outcome "alice" casino =
           corrective_rules x high_roller
             (with_game "alice" (set_pattern_pos 4 high_roller) casino).
Proof.
  destruct (template_selection_and_cursor "alice" high_roller casino)
    as (_ & _ & pat & w1 & x & Hsel & Hx & Hcall);
    [reflexivity | simpl; lia |].
  simpl in Hsel. destruct Hsel as [Hpat ->]. injection Hpat as <-.
  exists x. split; [exact Hx | exact Hcall].
Defined.

(** C2.  Let [result] be the pattern element under the cursor (after a
    regeneration, if one was due) and [u] the generator's next draw once
    that element is read.  The call returns, and its value differs from
    [result] in two cases only: [result] is 1, the money exceeds 500000 and
    [u < 0.15], where it returns 0; or [result] is 0, the streak is at
    least 5 and [u < 0.1], where it returns 1.  In both cases the override
    does happen, the rules consume one draw exactly when their guard on
    [result], money or streak holds, and otherwise the value is [result]. *)
Theorem corrective_rules_are_the_only_overrides token st w :
  active_games w !! token = Some st → 0 ≤ pattern_pos st →
  let w1 := if exhausted st then (generate_pattern (level st) w).2 else w in
  let u := next_draw w1 in
  ∃ result r w' st' pat,
    get_next_outcome token w = (Return r, w')
    ∧ active_games w' !! token = Some st'
    ∧ pattern st' = Some pat
    ∧ pat !! Z.to_nat (pattern_pos st' - 1) = Some result
    ∧ rng w' = (if ((result =? 1) && Qltb 500000 (money st))
                   || ((result =? 0) && (5 <=? streak st))
                then tail (rng w1) else rng w1)
    ∧ (result = 1 → (500000 < money st)%Q → (u < 0.15)%Q → r = 0)
    ∧ (result = 0 → 5 ≤ streak st → (u < 0.1)%Q → r = 1)
    ∧ (r ≠ result →
       (result = 1 ∧ (500000 < money st)%Q ∧ (u < 0.15)%Q ∧ r = 0)
       ∨ (result = 0 ∧ 5 ≤ streak st ∧ (u < 0.1)%Q ∧ r = 1)).
Proof.
  intros Hst Hpos. simpl.
  destruct (exhausted st) eqn:Hex.
  - destruct (get_next_outcome_fresh token st w Hst Hex)
      as (pat & w1 & x & Hg & Hx & ->).
    rewrite Hg; simpl.
    destruct (corrective_rules_props x
      (GameState (level st) (money st) (streak st) (Some pat) 0)
      (with_game token (GameState (level st) (money st) (streak st) (Some pat) 1) w1))
      as (r & w' & Hr & Hw' & Hrng & H1 & H2 & H3).
    exists x, r, w', (GameState (level st) (money st) (streak st) (Some pat) 1), pat.
    split; [done|]. split.
    { rewrite Hw'. simpl. apply lookup_insert_eq. }
    by repeat split.
  - destruct (exhausted_false st Hex) as (pat & Hpat & Hlt).
    destruct (get_next_outcome_cursor token st pat w Hst Hpat ltac:(lia))
      as (x & Hx & ->).
    destruct (corrective_rules_props x st
      (with_game token (set_pattern_pos (pattern_pos st + 1) st) w))
      as (r & w' & Hr & Hw' & Hrng & H1 & H2 & H3).
    exists x, r, w', (set_pattern_pos (pattern_pos st + 1) st), pat.
    split; [done|]. split.
    { rewrite Hw'. simpl. apply lookup_insert_eq. }
    split; [done|]. split.
    { simpl. by replace (pattern_pos st + 1 - 1) with (pattern_pos st) by lia. }
    by repeat split.
Qed.

Lemma corrective_rules_are_the_only_overrides_witness :
  ∃ r w', get_next_outcome "alice" casino = (Return r, w').
Proof.
  destruct (corrective_rules_are_the_only_overrides "alice" high_roller casino)
    as (result & r & w' & st' & pat & Hcall & _); [reflexivity | simpl; lia |].
  exists r, w'. exact Hcall.
Defined.

(** The rich session of [casino] reads a 1 at cursor 3 and the first word
    of the tape makes the draw fall under 0.15: the tick is turned into a
    bust.  The newcomer gets element 0 of a fresh easy sequence. *)
Example alice_is_busted : (get_next_outcome "alice" casino).1 = Return 0.
Proof. vm_compute. reflexivity. Qed.

Example bob_gets_a_fresh_pattern :
  (get_next_outcome "bob" casino).1 = Return 1
  ∧ pattern_pos <$> active_games (get_next_outcome "bob" casino).2 !! "bob" = Some 1.
Proof. vm_compute. done. Qed.

(** ** Shuffling and sampling *)

Lemma shuffle_step_spec {A} i (x : list A) w :
  0 < i < len x →
  ∃ x' w', shuffle_step i x w = (Return x', w') ∧ rng_step w w' ∧ x' ≡ₚ x.
Proof.
  unfold len. intros Hi. unfold shuffle_step.
  destruct (randbelow_step (i + 1) w) as (j & w1 & Hj & Hw1 & Hjb); [lia|].
  rewrite (bind_Return _ _ _ _ _ Hj).
  destruct (py_getitem_in_range x j w1) as (xj & Hxj & Hgj); [lia|].
  rewrite (bind_Return _ _ _ _ _ Hgj).
  destruct (py_getitem_in_range x i w1) as (xi & Hxi & Hgi); [lia|].
  rewrite (bind_Return _ _ _ _ _ Hgi).
  rewrite (bind_Return _ _ _ _ _ (py_setitem_in_range x i xj w1 ltac:(lia))).
  rewrite py_setitem_in_range by (rewrite length_insert; lia).
  eexists _, w1. split; [done|]. split; [done|].
  by apply swap_Permutation.
Qed.

Lemma random_shuffle_spec {A} (x : list A) w :
  ∃ x' w', random_shuffle x w = (Return x', w') ∧ rng_step w w' ∧ x' ≡ₚ x.
Proof.
  apply permuting_loop; [apply @shuffle_step_spec|].
  intros i Hi%range_down_bounds. lia.
Qed.

(** Moving the last live cell into the chosen one keeps the live cells,
    minus the chosen element. *)
Lemma take_replace_by_last {A} (pool : list A) (m j : nat) chosen last :
  (j ≤ m)%nat → pool !! j = Some chosen → pool !! m = Some last →
  chosen :: take m (<[j := last]> pool) ≡ₚ take (S m) pool.
Proof.
  intros Hjm Hj Hm. rewrite (take_S_r _ _ _ Hm).
  destruct (decide (j = m)) as [->|Hne].
  - rewrite take_insert_ge by done. simplify_eq.
    by rewrite Permutation_cons_append.
  - rewrite take_insert_lt by lia.
    rewrite insert_Permutation by (rewrite length_take; apply lookup_lt_Some in Hm; lia).
    rewrite <- Permutation_cons_append.
    etrans; [apply Permutation_swap|]. f_equiv.
    symmetry. apply delete_Permutation. by rewrite lookup_take_lt by lia.
Qed.

Lemma sample_step_spec {A} n i (result pool : list A) w :
  len pool = n → 0 ≤ i < n →
  ∃ chosen pool' w',
    sample_step n i (result, pool) w = (Return (result ++ [chosen], pool'), w')
    ∧ rng_step w w' ∧ len pool' = n
    ∧ chosen :: take (Z.to_nat (n - i - 1)) pool' ≡ₚ take (Z.to_nat (n - i)) pool.
Proof.
  unfold len. intros Hn Hi. unfold sample_step.
  destruct (randbelow_step (n - i) w) as (j & w1 & Hj & Hw1 & Hjb); [lia|].
  rewrite (bind_Return _ _ _ _ _ Hj).
  destruct (py_getitem_in_range pool j w1) as (chosen & Hc & Hgc); [lia|].
  rewrite (bind_Return _ _ _ _ _ Hgc).
  destruct (py_getitem_in_range pool (n - i - 1) w1) as (last & Hl & Hgl); [lia|].
  rewrite (bind_Return _ _ _ _ _ Hgl).
  rewrite (bind_Return _ _ _ _ _ (py_setitem_in_range pool j last w1 ltac:(lia))).
  eexists chosen, _, w1. split; [done|]. split; [done|].
  split; [by rewrite length_insert|].
  replace (Z.to_nat (n - i)) with (S (Z.to_nat (n - i - 1))) by lia.
  apply take_replace_by_last; [lia | done | done].
Qed.

Lemma sample_loop_spec {A} n (k : nat) i (result pool : list A) w :
  len pool = n → 0 ≤ i → i + Z.of_nat k ≤ n →
  ∃ sel pool' w',
    for_each (seqZ i (Z.of_nat k)) (sample_step n) (result, pool) w
      = (Return (result ++ sel, pool'), w')
    ∧ rng_step w w' ∧ length sel = k ∧ len pool' = n
    ∧ sel ++ take (Z.to_nat (n - i - Z.of_nat k)) pool' ≡ₚ take (Z.to_nat (n - i)) pool.
Proof.
  revert i result pool w.
  induction k as [|k IH]; intros i result pool w Hn Hi Hk.
  - exists [], pool, w. rewrite app_nil_r. simpl.
    split; [done|]. split; [apply rng_step_refl|]. split; [done|]. split; [done|].
    by rewrite Z.sub_0_r.
  - rewrite seqZ_cons by lia.
    replace (Z.pred (Z.of_nat (S k))) with (Z.of_nat k) by lia. simpl.
    destruct (sample_step_spec n i result pool w Hn ltac:(lia))
      as (chosen & pool1 & w1 & H1 & Hw1 & Hn1 & Hp1).
    rewrite (bind_Return _ _ _ _ _ H1).
    destruct (IH (Z.succ i) (result ++ [chosen]) pool1 w1 Hn1 ltac:(lia) ltac:(lia))
      as (sel & pool2 & w2 & H2 & Hw2 & Hlen & Hn2 & Hp2).
    exists (chosen :: sel), pool2, w2.
    rewrite H2, <- app_assoc. simpl.
    split; [done|]. split; [by eapply rng_step_trans|].
    split; [by rewrite Hlen|]. split; [done|].
    replace (n - i - Z.of_nat (S k)) with (n - Z.succ i - Z.of_nat k) by lia.
    rewrite Hp2, <- Hp1. by replace (n - Z.succ i) with (n - i - 1) by lia.
Qed.

(** *** Each arrangement comes from exactly one sequence of draws *)






(** *** The loop over the set of taken positions *)

Lemma offered_range n tape : 0 < n → Forall (λ j, 0 ≤ j < n) (offered n tape).
Proof.
  intros Hn. unfold offered. apply Forall_fmap, Forall_forall. intros r _.
  simpl. apply Z.mod_pos_bound. lia.
Qed.

Lemma fresh_positions_elem seen s j :
  j ∈ fresh_positions seen s → j ∈ s ∧ j ∉ seen.
Proof.
  revert seen. induction s as [|x s IH]; intros seen; simpl.
  { by intros ?%elem_of_nil. }
  case_bool_decide as Hx.
  - intros [??]%IH. split; [by right | done].
  - intros [->|[??]%IH]%elem_of_cons.
    + split; [by left | done].
    + split; [by right | set_solver].
Qed.

Lemma fresh_positions_NoDup seen s : NoDup (fresh_positions seen s).
Proof.
  revert seen. induction s as [|x s IH]; intros seen; simpl; [constructor|].
  case_bool_decide as Hx; [apply IH|].
  constructor; [|apply IH].
  intros [_ Hn]%fresh_positions_elem. set_solver.
Qed.

Lemma fresh_positions_range n seen tape :
  0 < n → Forall (λ j, 0 ≤ j < n) (fresh_positions seen (offered n tape)).
Proof.
  intros Hn. apply Forall_forall. intros j [Hj _]%fresh_positions_elem.
  by apply (proj1 (Forall_forall _ _) (offered_range n tape Hn)).
Qed.


Lemma randbelow_spec n w :
  randbelow n w = (Return (Z.of_N (hd 0%N (rng w)) mod n), set_rng (tail (rng w)) w).
Proof. done. Qed.

(** With zero taken and the tape at its end, every round draws zero. *)
Lemma redraw_stuck rounds n selected w :
  0 < n → 0 ∈ selected → rng w = [] →
  redraw rounds n 0 selected w = (Diverges, w).
Proof.
  intros Hn H0 Hw. induction rounds as [|rounds IH]; simpl.
  { by rewrite bool_decide_eq_true_2. }
  rewrite bool_decide_eq_true_2 by done.
  rewrite (bind_Return _ _ _ _ _ (randbelow_spec n w)).
  rewrite Hw. simpl. rewrite Z.mod_0_l by lia.
  replace (set_rng [] w) with w by (destruct w; simpl in *; by subst).
  exact IH.
Qed.

Lemma redraw_spec rounds n j0 selected w :
  0 < n → (length (rng w) < rounds)%nat →
  ∃ w', rng_step w w' ∧
    match fresh_positions selected (j0 :: offered n (rng w)) with
    | j :: rest =>
      redraw rounds n j0 selected w = (Return j, w')
      ∧ fresh_positions ({[j]} ∪ selected) (offered n (rng w')) = rest
    | [] => redraw rounds n j0 selected w = (Diverges, w')
    end.
Proof.
  intros Hn. revert j0 w.
  induction rounds as [|rounds IH]; intros j0 w Hr; [lia|].
  cbn [fresh_positions redraw].
  case_bool_decide as Hj0; [|by exists w; split; [apply rng_step_refl|]].
  rewrite (bind_Return _ _ _ _ _ (randbelow_spec n w)).
  destruct (rng w) as [|r tape] eqn:Hw.
  - cbn [hd tail]. change (Z.of_N 0) with 0. rewrite Z.mod_0_l by lia.
    replace (set_rng [] w) with w by (destruct w; simpl in *; by subst).
    exists w. split; [apply rng_step_refl|].
    unfold offered. cbn [app fmap list_fmap fresh_positions].
    change (Z.of_N 0) with 0. rewrite Z.mod_0_l by lia.
    case_bool_decide as H0.
    + by apply redraw_stuck.
    + destruct rounds; simpl; rewrite bool_decide_eq_false_2 by done;
        (split; [done|]); rewrite Hw; unfold offered; simpl;
        rewrite Z.mod_0_l by lia; rewrite bool_decide_eq_true_2; set_solver.
  - cbn [hd tail].
    destruct (IH (Z.of_N r mod n) (set_rng tape w)) as (w' & Hw' & H).
    { simpl in *. lia. }
    exists w'. split.
    { eapply rng_step_trans; [|done]. by eexists. }
    exact H.
Qed.

Lemma offered_step n w :
  0 < n → ∀ selected,
  fresh_positions selected
    (Z.of_N (hd 0%N (rng w)) mod n :: offered n (tail (rng w)))
  = fresh_positions selected (offered n (rng w)).
Proof.
  intros Hn selected. destruct (rng w) as [|r tape]; [|done].
  unfold offered. cbn [hd tail app fmap list_fmap fresh_positions].
  change (Z.of_N 0) with 0. rewrite Z.mod_0_l by lia.
  case_bool_decide; [done|].
  rewrite bool_decide_eq_true_2; [done | set_solver].
Qed.

Lemma select_step_spec {A} (population : list A) n i result selected w :
  len population = n → 0 < n →
  ∃ w', rng_step w w' ∧
    match fresh_positions selected (offered n (rng w)) with
    | j :: rest =>
      ∃ x, select_step population n i (result, selected) w
           = (Return (result ++ [x], {[j]} ∪ selected), w')
           ∧ 0 ≤ j ∧ population !! Z.to_nat j = Some x
           ∧ fresh_positions ({[j]} ∪ selected) (offered n (rng w')) = rest
    | [] => select_step population n i (result, selected) w = (Diverges, w')
    end.
Proof.
  intros Hlen Hn. unfold select_step.
  rewrite (bind_Return _ _ _ _ _ (randbelow_spec n w)).
  set (w1 := set_rng (tail (rng w)) w).
  rewrite (bind_Return (gets rng) _ w1 (rng w1) w1 eq_refl).
  destruct (redraw_spec (S (length (rng w1))) n (Z.of_N (hd 0%N (rng w)) mod n)
              selected w1 Hn ltac:(lia)) as (w' & Hw' & H).
  change (rng w1) with (tail (rng w)) in H at 1.
  rewrite (offered_step n w Hn) in H.
  exists w'. split; [eapply rng_step_trans; [by eexists | done]|].
  pose proof (fresh_positions_range n selected (rng w) Hn) as Hrange.
  destruct (fresh_positions selected (offered n (rng w))) as [|j rest].
  - by rewrite (bind_Diverges _ _ _ _ H).
  - destruct H as [H Hrest]. apply Forall_cons in Hrange as [Hj _].
    rewrite (bind_Return _ _ _ _ _ H).
    destruct (py_getitem_in_range population j w') as (x & Hx & Hg);
      [unfold len in Hlen; lia|].
    rewrite (bind_Return _ _ _ _ _ Hg).
    exists x. split; [done|]. split; [lia|]. done.
Qed.

Lemma select_loop_spec {A} (population : list A) n (k : nat) :
  ∀ i result selected w,
  len population = n → 0 < n → 0 ≤ i →
  ∃ w', rng_step w w' ∧
    let picks := fresh_positions selected (offered n (rng w)) in
    if decide (k ≤ length picks)%nat then
      ∃ xs,
        for_each (seqZ i (Z.of_nat k)) (select_step population n)
                 (result, selected) w
        = (Return (result ++ xs, list_to_set (take k picks) ∪ selected), w')
        ∧ items_at population (take k picks) xs
    else
      for_each (seqZ i (Z.of_nat k)) (select_step population n)
               (result, selected) w
      = (Diverges, w').
Proof.
  induction k as [|k IH]; intros i result selected w Hlen Hn Hi.
  { exists w. split; [apply rng_step_refl|]. cbn zeta.
    rewrite decide_True by lia.
    exists []. rewrite app_nil_r, take_0, list_to_set_nil, (left_id_L ∅ (∪)).
    split; [done | constructor]. }
  rewrite seqZ_cons by lia.
  replace (Z.pred (Z.of_nat (S k))) with (Z.of_nat k) by lia.
  cbn [for_each].
  destruct (select_step_spec population n i result selected w Hlen Hn)
    as (w1 & Hw1 & Hstep).
  cbn zeta.
  destruct (fresh_positions selected (offered n (rng w))) as [|j rest].
  { exists w1. split; [done|]. simpl.
    by rewrite (bind_Diverges _ _ _ _ Hstep). }
  destruct Hstep as (x & Hstep & Hj & Hx & Hrest).
  rewrite (bind_Return _ _ _ _ _ Hstep).
  destruct (IH (Z.succ i) (result ++ [x]) ({[j]} ∪ selected) w1 Hlen Hn ltac:(lia))
    as (w2 & Hw2 & Hloop).
  cbn zeta in Hloop. rewrite Hrest in Hloop.
  exists w2. split; [by eapply rng_step_trans|].
  cbn [length]. destruct (decide (k ≤ length rest)%nat) as [Hk|Hk].
  - rewrite decide_True by lia.
    destruct Hloop as (xs & Hloop & Hitems).
    exists (x :: xs). rewrite Hloop, <- app_assoc. cbn [take app].
    rewrite list_to_set_cons.
    assert (list_to_set (take k rest) ∪ ({[j]} ∪ selected)
            = {[j]} ∪ list_to_set (take k rest) ∪ selected) as -> by set_solver.
    split; [done|]. by constructor.
  - by rewrite decide_False by lia.
Qed.

(** *** Items read at distinct positions *)

Lemma fmap_lookup_seq {A} (l : list A) (a : A) :
  (λ j, default a (l !! j)) <$> seq 0 (length l) = l.
Proof.
  apply list_eq. intros i. rewrite list_lookup_fmap.
  destruct (decide (i < length l)%nat) as [Hi|Hi].
  - rewrite lookup_seq_lt by done. simpl.
    destruct (lookup_lt_is_Some_2 l i Hi) as [x Hx]. by rewrite Hx.
  - rewrite lookup_seq_ge by lia. simpl. symmetry. apply lookup_ge_None. lia.
Qed.

Lemma items_at_fmap {A} (l : list A) (a : A) js xs :
  items_at l js xs → xs = (λ j, default a (l !! j)) <$> (Z.to_nat <$> js).
Proof.
  induction 1 as [|j x js xs [_ Hx] _ IH]; [done|].
  rewrite !fmap_cons, Hx. simpl. by f_equal.
Qed.

Lemma items_at_length {A} (l : list A) js xs :
  items_at l js xs → length xs = length js.
Proof. intros H. symmetry. by eapply Forall2_length. Qed.

(** Items read at positions that are all different form a sub-multiset. *)
Lemma items_at_submseteq {A} (l : list A) js xs :
  NoDup js → items_at l js xs → xs ⊆+ l.
Proof.
  intros Hnd Hitems.
  destruct l as [|a l'] eqn:Hl.
  { destruct Hitems as [|j x js xs [_ Hx]]; [done|]. by rewrite lookup_nil in Hx. }
  rewrite <- Hl in *. clear Hl l'.
  rewrite (items_at_fmap l a js xs Hitems).
  cut ((λ j, default a (l !! j)) <$> (Z.to_nat <$> js)
       ⊆+ (λ j, default a (l !! j)) <$> seq 0 (length l)).
  { by rewrite fmap_lookup_seq. }
  apply fmap_submseteq. apply NoDup_submseteq.
  - apply NoDup_fmap_2_strong; [|done].
    intros i j Hi Hj Heq.
    assert (Hpos : ∀ k, k ∈ js → 0 ≤ k).
    { intros k Hk. unfold items_at in Hitems.
      apply list_elem_of_lookup in Hk as [p Hp].
      destruct (Forall2_lookup_l _ _ _ _ _ Hitems Hp) as (y & _ & ? & _). done. }
    pose proof (Hpos i Hi). pose proof (Hpos j Hj). lia.
  - intros p (j & -> & Hj)%list_elem_of_fmap.
    apply list_elem_of_lookup in Hj as [q Hq].
    destruct (Forall2_lookup_l _ _ _ _ _ Hitems Hq) as (y & _ & _ & Hy).
    apply elem_of_seq. apply lookup_lt_Some in Hy. lia.
Qed.


(** On a list without repetition the items tell the positions. *)
Lemma items_at_inj {A} (l : list A) js1 js2 xs :
  NoDup l → items_at l js1 xs → items_at l js2 xs → js1 = js2.
Proof.
  intros Hnd H1. revert js2.
  induction H1 as [|j x js xs [Hj Hx] _ IH]; intros js2 H2.
  - by inversion H2.
  - inversion H2 as [|j2 ? js2' ? [Hj2 Hx2] H2']; subst. f_equal; [|by apply IH].
    apply Z2Nat.inj; [done | done |]. by eapply NoDup_lookup.
Qed.


(** *** [random.sample] *)

Lemma set_rng_rng w : set_rng (rng w) w = w.
Proof. by destruct w. Qed.

Section SamplingProofs.

Variable ceil_log4 : Z → Z.

Lemma setsize_ge k : 21 ≤ setsize ceil_log4 k.
Proof.
  unfold setsize. destruct (5 <? k); [|done].
  destruct (Z.le_gt_cases 0 (ceil_log4 (k * 3))) as [He|He].
  - pose proof (Z.pow_nonneg 4 (ceil_log4 (k * 3)) ltac:(lia)). lia.
  - rewrite Z.pow_neg_r by lia. lia.
Qed.

(** A population that is small beside the sample is sampled by the loop
    over the copy, which always ends. *)
Lemma random_sample_pool {A} (population : list A) k w :
  0 ≤ k ≤ len population → len population ≤ setsize ceil_log4 k →
  ∃ sel pool' w',
    random_sample ceil_log4 population k w = (Return sel, w')
    ∧ for_each (seqZ 0 k) (sample_step (len population)) ([], population) w
      = (Return (sel, pool'), w')
    ∧ rng_step w w' ∧ len sel = k ∧ sel ⊆+ population.
Proof.
  intros Hk Hsmall. unfold random_sample.
  destruct (Z.ltb_spec k 0); [lia|].
  destruct (Z.ltb_spec (len population) k); [lia|]. cbn [orb].
  destruct (Z.leb_spec (len population) (setsize ceil_log4 k)); [|lia].
  destruct (sample_loop_spec (len population) (Z.to_nat k) 0 [] population w)
    as (sel & pool' & w' & Hloop & Hw & Hlen & _ & Hp); [done | done | lia |].
  rewrite Z2Nat.id in Hloop by lia.
  rewrite (bind_Return _ _ _ _ _ Hloop). simpl.
  exists sel, pool', w'. split; [done|]. split; [done|]. split; [done|].
  split; [unfold len; lia|].
  rewrite Z.sub_0_r in Hp. unfold len in Hp at 2.
  rewrite Nat2Z.id, firstn_all in Hp. rewrite <- Hp.
  by apply submseteq_inserts_r.
Qed.

(** A larger population is read at the first [k] distinct positions the
    generator offers; the call never ends if it offers fewer. *)
Lemma random_sample_set {A} (population : list A) k w :
  0 ≤ k ≤ len population → setsize ceil_log4 k < len population →
  ∃ w', rng_step w w' ∧
    if decide (k ≤ len (distinct_draws (len population) w)) then
      ∃ sel,
        random_sample ceil_log4 population k w = (Return sel, w')
        ∧ items_at population
            (take (Z.to_nat k) (distinct_draws (len population) w)) sel
    else random_sample ceil_log4 population k w = (Diverges, w').
Proof.
  intros Hk Hlarge. pose proof (setsize_ge k) as Hge. unfold random_sample.
  destruct (Z.ltb_spec k 0); [lia|].
  destruct (Z.ltb_spec (len population) k); [lia|]. cbn [orb].
  destruct (Z.leb_spec (len population) (setsize ceil_log4 k)); [lia|].
  destruct (select_loop_spec population (len population) (Z.to_nat k) 0 [] ∅ w)
    as (w' & Hw' & Hloop); [done | lia | done |].
  cbn zeta in Hloop. rewrite Z2Nat.id in Hloop by lia.
  fold (distinct_draws (len population) w) in Hloop.
  exists w'. split; [done|].
  destruct (decide (Z.to_nat k ≤ length (distinct_draws (len population) w))%nat)
    as [Hd|Hd].
  - rewrite decide_True by (unfold len at 1; lia).
    destruct Hloop as (xs & Hloop & Hitems).
    exists xs. by rewrite (bind_Return _ _ _ _ _ Hloop).
  - rewrite decide_False by (unfold len at 1; lia).
    by rewrite (bind_Diverges _ _ _ _ Hloop).
Qed.

Lemma distinct_draws_props n w :
  0 < n →
  NoDup (distinct_draws n w) ∧ Forall (λ j, 0 ≤ j < n) (distinct_draws n w).
Proof.
  intros Hn. split; [apply fresh_positions_NoDup | by apply fresh_positions_range].
Qed.

Lemma random_sample_spec {A} (population : list A) k w :
  0 ≤ k ≤ len population →
  len population ≤ setsize ceil_log4 k
  ∨ k ≤ len (distinct_draws (len population) w) →
  ∃ sel w',
    random_sample ceil_log4 population k w = (Return sel, w')
    ∧ rng_step w w' ∧ len sel = k ∧ sel ⊆+ population.
Proof.
  intros Hk Hends.
  destruct (Z.le_gt_cases (len population) (setsize ceil_log4 k)) as [Hs|Hs].
  { destruct (random_sample_pool population k w Hk Hs)
      as (sel & _ & w' & H & _ & Hw & Hl & Hsub). by exists sel, w'. }
  destruct Hends as [?|Hends]; [lia|].
  destruct (random_sample_set population k w Hk Hs) as (w' & Hw & H).
  rewrite decide_True in H by done. destruct H as (sel & H & Hitems).
  pose proof (setsize_ge k).
  destruct (distinct_draws_props (len population) w ltac:(lia)) as [Hnd _].
  exists sel, w'. split; [done|]. split; [done|]. split.
  - unfold len in *. rewrite (items_at_length _ _ _ Hitems), length_take. lia.
  - eapply items_at_submseteq; [|done].
    eapply sublist_NoDup; eauto using sublist_take.
Qed.

Lemma random_sample_stuck {A} (population : list A) k w :
  0 ≤ k ≤ len population →
  ¬ (len population ≤ setsize ceil_log4 k
     ∨ k ≤ len (distinct_draws (len population) w)) →
  ∃ w', random_sample ceil_log4 population k w = (Diverges, w') ∧ rng_step w w'.
Proof.
  intros Hk Hends.
  destruct (random_sample_set population k w Hk ltac:(lia)) as (w' & Hw & H).
  rewrite decide_False in H by lia. by exists w'.
Qed.




(** Asking for a negative number of items is refused by [random.sample]. *)
Lemma random_sample_negative {A} (population : list A) k w :
  k < 0 → random_sample ceil_log4 population k w = (Raise ValueError, w).
Proof.
  intros Hk. unfold random_sample. by destruct (Z.ltb_spec k 0); [|lia].
Qed.


Lemma format_question_spec q w :
  ∃ v w', format_question q w = (Return v, w') ∧ rng_step w w' ∧ is_view_of q v.
Proof.
  unfold format_question.
  destruct (random_shuffle_spec (incorrect_answers q ++ [correct_answer q]) w)
    as (answers & w' & Hs & Hw & Hp).
  rewrite (bind_Return _ _ _ _ _ Hs). by eexists _, w'.
Qed.

Lemma format_loop_spec selected acc w :
  ∃ views w',
    for_each selected
      (λ q result, view <- format_question q ;; ret (result ++ [view])) acc w
      = (Return (acc ++ views), w')
    ∧ rng_step w w' ∧ Forall2 is_view_of selected views.
Proof.
  revert acc w. induction selected as [|q selected IH]; intros acc w; simpl.
  - exists [], w. rewrite app_nil_r. split; [done|]. split; [apply rng_step_refl|].
    constructor.
  - destruct (format_question_spec q w) as (v & w1 & Hv & Hw1 & Hqv).
    rewrite (bind_Return _ _ _ _ _ (bind_Return _ _ _ _ _ Hv)).
    destruct (IH (acc ++ [v]) w1) as (views & w2 & H2 & Hw2 & Hall).
    exists (v :: views), w2. rewrite H2, <- app_assoc.
    split; [done|]. split; [by eapply rng_step_trans|]. by constructor.
Qed.

(** ** Sampling questions *)

Lemma selection_ends_rng {A} (pool : list A) count w w' :
  rng w' = rng w →
  selection_ends ceil_log4 pool count w → selection_ends ceil_log4 pool count w'.
Proof. unfold selection_ends, distinct_draws. by intros ->. Qed.

Lemma selection_ends_cases {A} (pool : list A) count w :
  selection_ends ceil_log4 pool count w ∨ ¬ selection_ends ceil_log4 pool count w.
Proof. unfold selection_ends. lia. Qed.

Lemma selection_spec {A} (pool : list A) count w :
  0 ≤ count → selection_ends ceil_log4 pool count w →
  ∃ selected w',
    (if len pool <=? count then random_shuffle pool
     else random_sample ceil_log4 pool count) w = (Return selected, w')
    ∧ rng_step w w'
    ∧ selected ⊆+ pool
    ∧ len selected = Z.min count (len pool)
    ∧ (len pool ≤ count → selected ≡ₚ pool).
Proof.
  intros Hc Hends. destruct (Z.leb_spec (len pool) count) as [Hle|Hlt].
  - destruct (random_shuffle_spec pool w) as (sel & w' & Hs & Hw & Hp).
    exists sel, w'. split; [done|]. split; [done|].
    split; [by rewrite Hp|]. split; [|done].
    unfold len in *. rewrite (Permutation_length Hp). lia.
  - destruct Hends as [?|Hends]; [lia|].
    destruct (random_sample_spec pool count w) as (sel & w' & Hs & Hw & Hl & Hsub);
      [lia | done |].
    exists sel, w'. split; [done|]. split; [done|]. split; [done|].
    split; lia.
Qed.

Lemma selection_stuck {A} (pool : list A) count w :
  0 ≤ count → ¬ selection_ends ceil_log4 pool count w →
  ∃ w',
    (if len pool <=? count then random_shuffle pool
     else random_sample ceil_log4 pool count) w = (Diverges, w')
    ∧ rng_step w w'.
Proof.
  unfold selection_ends. intros Hc Hends.
  destruct (Z.leb_spec (len pool) count) as [Hle|Hlt]; [tauto|].
  apply random_sample_stuck; [lia | tauto].
Qed.

Lemma pool_lookup_spec difficulty w :
  (match default [] (trivia_cache w !! difficulty) with
   | [] =>
     let pool := default FALLBACK_EASY (fallback_bank !! difficulty) in
     cache_set difficulty pool ;; ret pool
   | _ :: _ => ret (default [] (trivia_cache w !! difficulty))
   end) w = (Return (sampled_pool difficulty w), reseeded difficulty w).
Proof.
  unfold sampled_pool, reseeded.
  by destruct (default [] (trivia_cache w !! difficulty)).
Qed.

Lemma reseeded_rng difficulty w : rng (reseeded difficulty w) = rng w.
Proof.
  unfold reseeded. by destruct (default [] (trivia_cache w !! difficulty)).
Qed.

Lemma get_trivia_question_spec difficulty count w :
  0 ≤ count → selection_ends ceil_log4 (sampled_pool difficulty w) count w →
  ∃ selected views w',
    get_trivia_question ceil_log4 difficulty count w = (Return views, w')
    ∧ rng_step (reseeded difficulty w) w'
    ∧ Forall2 is_view_of selected views
    ∧ selected ⊆+ sampled_pool difficulty w
    ∧ len selected = Z.min count (len (sampled_pool difficulty w))
    ∧ (len (sampled_pool difficulty w) ≤ count →
       selected ≡ₚ sampled_pool difficulty w)
    ∧ ((if len (sampled_pool difficulty w) <=? count
        then random_shuffle (sampled_pool difficulty w)
        else random_sample ceil_log4 (sampled_pool difficulty w) count)
         (reseeded difficulty w)).1 = Return selected.
Proof.
  intros Hc Hends. unfold get_trivia_question.
  rewrite (bind_Return (cache_get difficulty) _ w
             (default [] (trivia_cache w !! difficulty)) w eq_refl).
  apply (selection_ends_rng _ _ _ (reseeded difficulty w)) in Hends;
    [|apply reseeded_rng].
  assert (Hpool := pool_lookup_spec difficulty w).
  destruct (default [] (trivia_cache w !! difficulty)) as [|q0 pool0] eqn:Hcache;
    rewrite (bind_Return _ _ _ _ _ Hpool);
    destruct (selection_spec (sampled_pool difficulty w) count
                (reseeded difficulty w) Hc Hends)
      as (sel & w1 & Hsel & Hw1 & Hsub & Hlen & Hperm);
    rewrite (bind_Return _ _ _ _ _ Hsel);
    destruct (format_loop_spec sel [] w1) as (views & w2 & Hfmt & Hw2 & Hall);
    exists sel, views, w2;
    (split; [exact Hfmt|]); (split; [by eapply rng_step_trans|]);
    rewrite Hsel; done.
Qed.

(** When the generator never offers a fresh position the call never
    ends; the cache is as the reseeding left it. *)
Lemma get_trivia_question_stuck difficulty count w :
  0 ≤ count → ¬ selection_ends ceil_log4 (sampled_pool difficulty w) count w →
  ∃ w',
    get_trivia_question ceil_log4 difficulty count w = (Diverges, w')
    ∧ rng_step (reseeded difficulty w) w'.
Proof.
  intros Hc Hends. unfold get_trivia_question.
  rewrite (bind_Return (cache_get difficulty) _ w
             (default [] (trivia_cache w !! difficulty)) w eq_refl).
  assert (Hends' : ¬ selection_ends ceil_log4 (sampled_pool difficulty w) count
                     (reseeded difficulty w)).
  { intros H. apply Hends. eapply selection_ends_rng; [|exact H].
    symmetry. apply reseeded_rng. }
  assert (Hpool := pool_lookup_spec difficulty w).
  destruct (default [] (trivia_cache w !! difficulty)) as [|q0 pool0] eqn:Hcache;
    rewrite (bind_Return _ _ _ _ _ Hpool);
    destruct (selection_stuck (sampled_pool difficulty w) count
                (reseeded difficulty w) Hc Hends') as (w1 & Hsel & Hw1);
    rewrite (bind_Diverges _ _ _ _ Hsel); by exists w1.
Qed.


Lemma submseteq_NoDup {A} (l k : list A) : l ⊆+ k → NoDup k → NoDup l.
Proof.
  intros (r & Hr)%submseteq_Permutation. rewrite Hr.
  by intros (? & _ & _)%NoDup_app.
Qed.

Lemma reseed_bank_cases difficulty :
  (difficulty = "easy" ∧ reseed_bank difficulty = FALLBACK_EASY)
  ∨ (difficulty = "medium" ∧ reseed_bank difficulty = FALLBACK_MEDIUM)
  ∨ (difficulty = "hard" ∧ reseed_bank difficulty = FALLBACK_HARD)
  ∨ ((difficulty ∉ ["easy"; "medium"; "hard"])
     ∧ reseed_bank difficulty = FALLBACK_EASY).
Proof.
  unfold reseed_bank, fallback_bank. simpl.
  destruct (decide (difficulty = "easy")) as [->|He]; [by left|].
  destruct (decide (difficulty = "medium")) as [->|Hm]; [by right; left|].
  destruct (decide (difficulty = "hard")) as [->|Hh]; [by right; right; left|].
  right; right; right. split.
  { rewrite !not_elem_of_cons. repeat split; try done. apply not_elem_of_nil. }
  by rewrite !lookup_insert_ne, lookup_empty by done.
Qed.

Lemma reseed_bank_nonempty difficulty : reseed_bank difficulty ≠ [].
Proof.
  destruct (reseed_bank_cases difficulty)
    as [(_ & ->)|[(_ & ->)|[(_ & ->)|(_ & ->)]]]; done.
Qed.




End SamplingProofs.





(** The same request is served from the first two distinct positions of
    a tape that repeats one: positions 7 and 8 for the draws 7, 7, 8. *)
Example redraw_skips_a_taken_position :
  ∃ v1 v2 w',
    get_trivia_question ceil_log4_exact "easy" 2
      (set_rng [7%N; 7%N; 8%N] stocked_world) = (Return [v1; v2], w')
    ∧ Some (view_question v1) = question_text <$> FALLBACK_EASY !! 7%nat
    ∧ Some (view_question v2) = question_text <$> FALLBACK_EASY !! 8%nat.
Proof. eexists _, _, _. split; [vm_compute; reflexivity|]. by vm_compute. Qed.

(** ** The external fetcher *)

Section FetcherProofs.

Variable html_unescape : string → string.

Lemma parse_question_spec q w :
  (well_formed q →
   parse_question html_unescape q w = (Return (unescaped html_unescape q), w))
  ∧ (¬ well_formed q →
     ∃ key, parse_question html_unescape q w = (Raise (KeyError key), w)).
Proof.
  unfold well_formed, parse_question, unescaped.
  destruct q as [[text|] [correct|] [incorrect|] cat]; simpl; split;
    try (intros (H1 & H2 & H3); by (inversion H1 || inversion H2 || inversion H3));
    try (intros _; by eexists);
    try done.
  intros H. destruct H. by repeat split.
Qed.

Lemma parse_loop_spec results acc w :
  (Forall well_formed results →
   for_each results
     (λ q questions, item <- parse_question html_unescape q ;; ret (questions ++ [item]))
     acc w = (Return (acc ++ (unescaped html_unescape <$> results)), w))
  ∧ (¬ Forall well_formed results →
     ∃ key,
       for_each results
         (λ q questions, item <- parse_question html_unescape q ;; ret (questions ++ [item]))
         acc w = (Raise (KeyError key), w)).
Proof.
  revert acc. induction results as [|q results IH]; intros acc; simpl.
  - split; [by rewrite app_nil_r | intros H; destruct H; constructor].
  - destruct (parse_question_spec q w) as [Hok Hbad].
    destruct (IH (acc ++ [unescaped html_unescape q])) as [IHok IHbad].
    destruct (decide (well_formed q)) as [Hq|Hq].
    + rewrite (bind_Return _ _ _ _ _ (bind_Return _ _ _ _ _ (Hok Hq))).
      split.
      * intros Hall. inversion Hall; subst.
        rewrite IHok by done. by rewrite <- app_assoc.
      * intros Hall. apply IHbad. intros H. apply Hall. by constructor.
    + destruct (Hbad Hq) as [key Hkey]. split.
      * intros Hall. by inversion Hall.
      * intros _. exists key.
        by rewrite (bind_Raise _ _ _ _ _ (bind_Raise _ _ _ _ _ Hkey)).
Qed.

Lemma fetch_unfold difficulty amount w :
  fetch_trivia_from_api html_unescape difficulty amount w =
    try_except (fetch_attempt html_unescape difficulty amount) fetch_handlers
               (after_wait w).
Proof.
  unfold fetch_trivia_from_api, after_wait, bind, time_time, gets, time_sleep,
    modify, ret; simpl.
  by destruct (Qltb 0 _).
Qed.

Lemma after_wait_net w : net (after_wait w) = net w.
Proof. unfold after_wait. by destruct (Qltb 0 _). Qed.

Lemma after_wait_last w : last_fetch_time (after_wait w) = last_fetch_time w.
Proof. unfold after_wait. by destruct (Qltb 0 _). Qed.

(** C6, as the code has it.  The call always returns a list, whatever the
    network does.  The list is empty when the request fails ([URLError],
    timeout), when the source answers with an HTTP error status, when the
    body is not JSON or not an object, when an item lacks a key, and when
    the response code is not 0.  The last-call timestamp is set to the
    current time plus 10, the sum of two floats, in two cases, response
    code 5 and an HTTP error status; a failed request leaves it alone, and
    every other reply sets it to the time the reply arrived. *)
Theorem fetch_failures_are_empty difficulty amount w :
  ∃ questions w',
    fetch_trivia_from_api html_unescape difficulty amount w = (Return questions, w')
    ∧ match next_reply w with
      | UrlError =>
        questions = [] ∧ last_fetch_time w' = last_fetch_time w
      | HttpError _ =>
        questions = [] ∧ last_fetch_time w' = float_add (clock w') 10
      | Response NotJson | Response NotObject =>
        questions = [] ∧ last_fetch_time w' = clock w'
      | Response (Object code results) =>
        (code = Some 5 →
         questions = [] ∧ last_fetch_time w' = float_add (clock w') 10)
        ∧ (code ≠ Some 5 → last_fetch_time w' = clock w')
        ∧ (code ≠ Some 0 → questions = [])
        ∧ (code = Some 0 → ¬ Forall well_formed (default [] results) →
           questions = [])
        ∧ (code = Some 0 → Forall well_formed (default [] results) →
           questions = unescaped html_unescape <$> default [] results)
      end.
Proof.
  rewrite fetch_unfold. unfold next_reply. rewrite <- (after_wait_net w).
  rewrite <- (after_wait_last w). generalize (after_wait w). clear w. intros w.
  unfold try_except, fetch_attempt, urlopen, bind at 1.
  destruct (net w) as [|[latency reply] rest]; simpl; [by eexists _, _|].
  destruct reply as [|status|[| |code results]]; simpl;
    try (by eexists _, _).
  unfold bind at 1; simpl. unfold bind at 1; simpl.
  destruct (decide (code = Some 0)) as [->|H0].
  - simpl.
    match goal with
    | |- context [for_each ?rs ?f ?a ?v] =>
      destruct (parse_loop_spec rs a v) as [Hok Hbad]
    end.
    destruct (decide (Forall well_formed (default [] results))) as [Hall|Hall].
    + rewrite (Hok Hall). eexists _, _. split; [done|]. simpl.
      repeat split; try done.
    + destruct (Hbad Hall) as [key ->]. eexists _, _. split; [done|]. simpl.
      repeat split; try done.
  - rewrite bool_decide_eq_false_2 by done.
    destruct (decide (code = Some 5)) as [->|H5].
    + rewrite bool_decide_eq_true_2 by done. simpl.
      eexists _, _. split; [done|]. simpl. repeat split; try done.
    + rewrite bool_decide_eq_false_2 by done. simpl.
      eexists _, _. split; [done|]. simpl. repeat split; try done.
Qed.

End FetcherProofs.

(** A source that answers every request with an HTTP 503 is not signalling
    a rate limit, yet the timestamp ends 10 seconds ahead of the clock. *)
Lemma http_error_also_backs_off :
  next_reply outage_world = HttpError 503
  ∧ (fetch_trivia_from_api (λ s, s) "easy" 30 outage_world).1 = Return []
  ∧ clock (fetch_trivia_from_api (λ s, s) "easy" 30 outage_world).2 = 101%Q
  ∧ last_fetch_time (fetch_trivia_from_api (λ s, s) "easy" 30 outage_world).2
    = 111%Q.
Proof. vm_compute. done. Qed.

(** ** The refill merge *)

Lemma filter_fresh pool (l : list question) :
  filter (λ q, question_text q ∉ (list_to_set (question_text <$> pool) : gset string)) l
  = filter (fresh_for pool) l.
Proof.
  apply list_filter_iff. intros q. unfold fresh_for.
  by rewrite elem_of_list_to_set.
Qed.

Lemma length_filter_complement {A} (P : A → Prop) `{!∀ x, Decision (P x)}
    (l : list A) :
  (length (filter P l) + length (filter (λ x, ¬ P x) l))%nat = length l.
Proof.
  rewrite <- length_app. apply Permutation_length, filter_app_complement.
Qed.

(** C7, as the code has it.  With fetched questions in hand, the merge
    appends to the tier's pool, in their order, exactly the fetched
    questions whose text is not already in the pool, so the pool grows by
    the number of fetched questions minus the number of known ones: five
    questions merged with three of which two are known make six.  With an
    empty fetch result the pool is left alone when it holds at least as
    many questions as the tier's fallback bank; a smaller pool receives the
    fallback questions whose text it lacks. *)
Theorem merge_discards_known_texts difficulty pool fallback questions w :
  trivia_cache w !! difficulty = Some pool →
  fallback_bank !! difficulty = Some fallback →
  merge_fetched difficulty questions w =
    (Return (),
     match questions with
     | _ :: _ =>
       with_pool difficulty (pool ++ filter (fresh_for pool) questions) w
     | [] =>
       if len pool <? len fallback
       then with_pool difficulty (pool ++ filter (fresh_for pool) fallback) w
       else w
     end)
  ∧ (length (pool ++ filter (fresh_for pool) questions)
     = length pool + length questions
       - length (filter (λ q, ¬ fresh_for pool q) questions))%nat
  ∧ (length pool = 5%nat → length questions = 3%nat →
     length (filter (λ q, ¬ fresh_for pool q) questions) = 2%nat →
     length (pool ++ filter (fresh_for pool) questions) = 6%nat).
Proof.
  intros Hpool Hfb.
  assert (Hlen : (length (pool ++ filter (fresh_for pool) questions)
     = length pool + length questions
       - length (filter (λ q, ¬ fresh_for pool q) questions))%nat).
  { rewrite length_app.
    pose proof (length_filter_complement (fresh_for pool) questions). lia. }
  split; [|split; [done|lia]].
  unfold merge_fetched. destruct questions as [|q questions].
  - unfold py_dict_getitem at 1. rewrite Hfb.
    unfold bind at 1, ret at 1.
    unfold bind at 1, cache_get at 1, bind at 1, gets at 1, ret at 1.
    rewrite Hpool. simpl default.
    destruct (len pool <? len fallback).
    + unfold bind at 1, bind at 1, cache_get at 1, bind at 1, gets at 1, ret at 1.
      rewrite Hpool. simpl default. rewrite filter_fresh.
      unfold cache_set, modify, bind, gets, ret, py_dict_getitem; simpl.
      by rewrite lookup_insert_eq.
    + unfold bind, gets, ret, py_dict_getitem; simpl. by rewrite Hpool.
  - unfold bind, cache_get, gets, ret, cache_set, modify; simpl.
    rewrite Hpool. simpl. by rewrite filter_fresh.
Qed.

Lemma merge_discards_known_texts_witness :
  merge_fetched "hard" [mars] stocked_world
  = (Return (), with_pool "hard" (FALLBACK_HARD ++ [mars]) stocked_world).
Proof.
  destruct (merge_discards_known_texts "hard" FALLBACK_HARD FALLBACK_HARD [mars]
              stocked_world) as (Hcall & _); [reflexivity | reflexivity |].
  exact Hcall.
Defined.

(** A pool of twelve hard questions is not left untouched by a failed
    fetch: the merge step completes it from the fallback bank, and so does
    a whole run of [prefetch_trivia] against an unreachable source. *)
Lemma failed_fetch_tops_up_from_fallback :
  trivia_cache thin_world !! "hard" = Some (take 12 FALLBACK_HARD)
  ∧ (merge_fetched "hard" [] thin_world).1 = Return ()
  ∧ trivia_cache (merge_fetched "hard" [] thin_world).2 !! "hard"
    = Some FALLBACK_HARD
  ∧ net thin_world = []
  ∧ length <$> trivia_cache (prefetch_trivia (λ s, s) thin_world).2 !! "hard"
    = Some 15%nat.
Proof. vm_compute. done. Qed.

(** The dedup scenario: five seeded questions, three fetched of which two
    repeat a seeded text, six questions afterwards. *)
Example dedup_scenario :
  length <$> trivia_cache
    (merge_fetched "easy" (take 2 FALLBACK_EASY ++ [pluto]) seeded_world).2 !! "easy"
  = Some 6%nat.
Proof. vm_compute. reflexivity. Qed.

(** Texts are compared with the pool as it was before the merge, so a
    question fetched twice in one batch enters the pool twice. *)
Example merge_keeps_twins :
  trivia_cache (merge_fetched "easy" [pluto; pluto] seeded_world).2 !! "easy"
  = Some (take 5 FALLBACK_EASY ++ [pluto; pluto]).
Proof. vm_compute. reflexivity. Qed.

(** ** The leaderboard cache *)

Lemma insert_by_Permutation {A} (key : A → Z) x l : insert_by key x l ≡ₚ x :: l.
Proof.
  induction l as [|y l IH]; simpl; [done|].
  destruct (key x <=? key y); [done|]. rewrite IH. apply Permutation_swap.
Qed.

Lemma py_sort_Permutation {A} (key : A → Z) l : py_sort key l ≡ₚ l.
Proof.
  induction l as [|x l IH]; simpl; [done|].
  by rewrite insert_by_Permutation, IH.
Qed.

Lemma insert_by_sorted {A} (key : A → Z) x l :
  StronglySorted (λ a b, key a ≤ key b) l →
  StronglySorted (λ a b, key a ≤ key b) (insert_by key x l).
Proof.
  induction 1 as [|y l Hl IH Hy]; simpl.
  - repeat constructor.
  - destruct (Z.leb_spec (key x) (key y)).
    + constructor; [by constructor|].
      constructor; [done|]. eapply Forall_impl; [exact Hy|]. simpl. lia.
    + constructor; [done|].
      rewrite insert_by_Permutation. constructor; [lia | done].
Qed.

Lemma py_sort_sorted {A} (key : A → Z) l :
  StronglySorted (λ a b, key a ≤ key b) (py_sort key l).
Proof.
  induction l as [|x l IH]; simpl; [constructor|]. by apply insert_by_sorted.
Qed.

Lemma StronglySorted_take {A} (R : relation A) n l :
  StronglySorted R l → StronglySorted R (take n l).
Proof.
  intros Hl. rewrite <- (take_drop n l) in Hl.
  by apply StronglySorted_app in Hl as (_ & ? & _).
Qed.

Lemma descending_by_score l :
  StronglySorted (λ a b, - score a ≤ - score b) l →
  StronglySorted (λ a b, score b ≤ score a) l.
Proof.
  induction 1 as [|x l Hl IH Hx]; constructor; [done|].
  eapply Forall_impl; [exact Hx|]. simpl. lia.
Qed.

(** C8, as the code has it.  A refresh reads the whole stored leaderboard
    (an empty one when the file is missing or unreadable), sorts it by
    score, highest first, and keeps the first 50 rows as the snapshot.  The
    read path that follows returns the first 20 rows of that order: at most
    20 rows, each score at most the score before it.  Rows with equal
    scores are both kept, so the order is descending but not strictly. *)
Theorem refresh_then_top_is_descending w :
  let stored :=
    default [] (db_leaderboard (default (Database (Some [])) (db_file w))) in
  let ranked := py_sort (λ x, - score x) stored in
  ∃ w1 top,
    refresh_leaderboard w = (Return (), w1)
    ∧ w1 = set_cached_leaderboard (take 50 ranked) w
    ∧ ranked ≡ₚ stored
    ∧ StronglySorted (λ a b, score b ≤ score a) ranked
    ∧ (length (cached_leaderboard w1) ≤ 50)%nat
    ∧ api_leaderboard w1 = (Return top, w1)
    ∧ top = take 20 ranked
    ∧ (length top ≤ 20)%nat
    ∧ StronglySorted (λ a b, score b ≤ score a) top.
Proof.
  intros stored ranked.
  assert (Hsorted : StronglySorted (λ a b, score b ≤ score a) ranked).
  { apply descending_by_score, (py_sort_sorted (λ x, - score x)). }
  exists (set_cached_leaderboard (take 50 ranked) w), (take 20 ranked).
  split; [done|]. split; [done|]. split; [apply py_sort_Permutation|].
  split; [done|]. split; [simpl; rewrite length_take; lia|].
  split.
  - unfold api_leaderboard.
    rewrite (bind_Return (gets cached_leaderboard) _
               (set_cached_leaderboard (take 50 ranked) w) (take 50 ranked)
               (set_cached_leaderboard (take 50 ranked) w) eq_refl).
    rewrite take_take. change (20 `min` 50)%nat with 20%nat.
    destruct (take 20 ranked) as [|e top] eqn:Htop; [|done].
    assert (Hnil : stored = []).
    { apply Permutation_nil_r. rewrite <- (py_sort_Permutation (λ x, - score x)).
      fold ranked. by destruct ranked. }
    unfold bind, load_db, gets, ret; simpl. fold stored. by rewrite Hnil.
  - split; [done|]. split; [rewrite length_take; lia|].
    by apply StronglySorted_take.
Qed.

(** Two players tied on 100 points come back next to each other: the
    scores returned after a refresh are not strictly descending. *)
Lemma tied_scores_are_not_strictly_descending :
  (api_leaderboard (refresh_leaderboard tied_world).2).1 = Return [cat; ann; ben]
  ∧ score ann = score ben
  ∧ ¬ StronglySorted (λ a b, score b < score a) [cat; ann; ben].
Proof.
  split; [vm_compute; reflexivity|]. split; [reflexivity|].
  intros H. inversion H as [|? ? H1 _]; subst.
  inversion H1 as [|? ? _ H2]; subst.
  inversion H2 as [|? ? H3 _]; subst. vm_compute in H3. discriminate.
Qed.

(** * Further properties of the code *)

(** ** The fetcher: frame *)

Section FetcherFrame.

Variable html_unescape : string → string.

(** What a fetch does to the world, reply by reply: the wait, the latency
    of the reply, and the timestamp. *)
Lemma fetch_world difficulty amount w :
  ∃ questions t,
    fetch_trivia_from_api html_unescape difficulty amount w
    = (Return questions,
       match net w with
       | [] => after_wait w
       | (latency, _) :: rest =>
         set_last_fetch_time t
           (set_net rest
              (set_clock (clock (after_wait w) + latency)%Q (after_wait w)))
       end).
Proof.
  rewrite fetch_unfold. rewrite <- (after_wait_net w).
  generalize (after_wait w). clear w. intros w.
  unfold try_except, fetch_attempt, urlopen, bind at 1.
  destruct (net w) as [|[latency reply] rest] eqn:Hnet; simpl.
  { by exists [], 0%Q. }
  destruct reply as [|status|[| |code results]]; simpl.
  - exists [], (last_fetch_time w). by destruct w.
  - by eexists [], _.
  - by eexists [], _.
  - by eexists [], _.
  - unfold bind at 1; simpl. unfold bind at 1; simpl.
    destruct (bool_decide (code = Some 0)).
    + match goal with
      | |- context [for_each ?rs ?f ?a ?v] =>
        destruct (parse_loop_spec html_unescape rs a v) as [Hok Hbad]
      end.
      destruct (decide (Forall well_formed (default [] results))) as [Hall|Hall].
      * rewrite (Hok Hall). by eexists _, _.
      * destruct (Hbad Hall) as [key ->]. by eexists [], _.
    + destruct (bool_decide (code = Some 5)); simpl; by eexists [], _.
Qed.

(** X2.  A fetch consumes at most one reply of the network and changes
    nothing but the clock, the pending replies and the last-call timestamp:
    the trivia cache, the cache file, the games, the leaderboard snapshot,
    the database file and the generator are left as they were. *)
Theorem fetch_touches_only_clock_and_network difficulty amount w :
  let w' := (fetch_trivia_from_api html_unescape difficulty amount w).2 in
  net w' = tail (net w)
  ∧ trivia_cache w' = trivia_cache w
  ∧ trivia_cache_file w' = trivia_cache_file w
  ∧ active_games w' = active_games w
  ∧ cached_leaderboard w' = cached_leaderboard w
  ∧ db_file w' = db_file w
  ∧ rng w' = rng w
  ∧ disk_writable w' = disk_writable w.
Proof.
  destruct (fetch_world difficulty amount w) as (qs & t & ->). simpl.
  unfold after_wait.
  destruct (net w) as [|[latency reply] rest] eqn:Hnet;
    destruct (Qltb 0 _); simpl; by rewrite ?Hnet.
Qed.

End FetcherFrame.

(** ** The merge: what it keeps *)

Lemma cache_get_spec difficulty w :
  cache_get difficulty w = (Return (default [] (trivia_cache w !! difficulty)), w).
Proof. done. Qed.

Lemma cache_set_spec difficulty pool w :
  cache_set difficulty pool w = (Return (), with_pool difficulty pool w).
Proof. done. Qed.

Lemma merge_fetched_nonempty difficulty pool q questions w :
  trivia_cache w !! difficulty = Some pool →
  merge_fetched difficulty (q :: questions) w
  = (Return (),
     with_pool difficulty (pool ++ filter (fresh_for pool) (q :: questions)) w).
Proof.
  intros Hpool. unfold merge_fetched.
  rewrite (bind_Return _ _ _ _ _ (cache_get_spec difficulty w)).
  rewrite (bind_Return _ _ _ _ _ (cache_get_spec difficulty w)).
  rewrite Hpool. simpl default. by rewrite filter_fresh.
Qed.

Lemma merge_fetched_empty difficulty pool fallback w :
  trivia_cache w !! difficulty = Some pool →
  fallback_bank !! difficulty = Some fallback →
  merge_fetched difficulty [] w
  = (Return (),
     if len pool <? len fallback
     then with_pool difficulty (pool ++ filter (fresh_for pool) fallback) w
     else w).
Proof.
  intros Hpool Hfb. unfold merge_fetched.
  unfold py_dict_getitem at 1. rewrite Hfb.
  unfold bind at 1, ret at 1.
  rewrite (bind_Return _ _ _ _ _ (cache_get_spec difficulty w)).
  rewrite Hpool. simpl default.
  destruct (len pool <? len fallback).
  - unfold bind at 1.
    rewrite (bind_Return _ _ _ _ _ (cache_get_spec difficulty w)).
    rewrite Hpool. simpl default. rewrite filter_fresh, cache_set_spec.
    unfold bind, gets, ret, py_dict_getitem, with_pool; simpl.
    by rewrite lookup_insert_eq.
  - unfold bind, gets, ret, py_dict_getitem; simpl. by rewrite Hpool.
Qed.

Lemma texts_fresh_NoDup pool l :
  NoDup (texts pool) → NoDup (texts l) →
  NoDup (texts (pool ++ filter (fresh_for pool) l)).
Proof.
  unfold texts. intros Hpool Hl. rewrite fmap_app. apply NoDup_app.
  split; [done|]. split.
  - intros t Ht (q & -> & Hq)%list_elem_of_fmap.
    apply list_elem_of_filter in Hq as [Hfresh _]. by apply Hfresh.
  - eapply submseteq_NoDup; [|exact Hl].
    apply fmap_submseteq, sublist_submseteq, sublist_filter.
Qed.

Lemma fallback_bank_NoDup difficulty fallback :
  fallback_bank !! difficulty = Some fallback → NoDup (texts fallback).
Proof.
  unfold fallback_bank. simpl. rewrite !lookup_insert, lookup_empty.
  repeat case_decide; intros [= <-];
    apply (bool_decide_unpack _); vm_compute; reflexivity.
Qed.

(** X3.  The merge keeps a pool free of repeated question texts: if the
    tier's pool repeats no text and the fetched batch repeats none either,
    the pool after the merge repeats none, and it starts with the old pool
    unchanged.  This holds for a non-empty batch and for the fallback
    top-up of an empty one. *)
Theorem merge_keeps_texts_distinct difficulty pool fallback questions w :
  trivia_cache w !! difficulty = Some pool →
  fallback_bank !! difficulty = Some fallback →
  NoDup (texts pool) → NoDup (texts questions) →
  ∃ added,
    (merge_fetched difficulty questions w).1 = Return ()
    ∧ trivia_cache (merge_fetched difficulty questions w).2 !! difficulty
      = Some (pool ++ added)
    ∧ NoDup (texts (pool ++ added)).
Proof.
  intros Hpool Hfb Hnd Hq. destruct questions as [|q questions].
  - rewrite (merge_fetched_empty _ _ _ _ Hpool Hfb).
    destruct (len pool <? len fallback).
    + eexists. split; [done|]. unfold with_pool; simpl.
      rewrite lookup_insert_eq. split; [done|].
      apply texts_fresh_NoDup; [done|]. by eapply fallback_bank_NoDup.
    + exists []. by rewrite app_nil_r.
  - rewrite (merge_fetched_nonempty _ _ _ _ _ Hpool).
    eexists. split; [done|]. unfold with_pool; simpl.
    rewrite lookup_insert_eq. split; [done|]. by apply texts_fresh_NoDup.
Qed.

Lemma merge_keeps_texts_distinct_witness :
  ∃ added,
    trivia_cache (merge_fetched "easy" [pluto; mars] seeded_world).2 !! "easy"
    = Some (take 5 FALLBACK_EASY ++ added)
    ∧ NoDup (texts (take 5 FALLBACK_EASY ++ added)).
Proof.
  destruct (merge_keeps_texts_distinct "easy" (take 5 FALLBACK_EASY) FALLBACK_EASY
              [pluto; mars] seeded_world) as (added & _ & Hc & Hnd);
    [reflexivity | reflexivity | | |].
  - apply (bool_decide_unpack _). vm_compute. reflexivity.
  - apply (bool_decide_unpack _). vm_compute. reflexivity.
  - exists added. split; [exact Hc | exact Hnd].
Defined.

Lemma filter_none {A} (P : A → Prop) `{!∀ x, Decision (P x)} (l : list A) :
  (∀ x, x ∈ l → ¬ P x) → filter P l = [].
Proof.
  induction l as [|x l IH]; intros Hl; [done|].
  rewrite filter_cons. destruct (decide (P x)) as [HP|_].
  - destruct (Hl x); [left | done].
  - apply IH. intros y Hy. apply Hl. by right.
Qed.

Lemma filter_fresh_again pool (l : list question) :
  filter (fresh_for (pool ++ filter (fresh_for pool) l)) l = [].
Proof.
  apply filter_none. intros q Hq Hfresh. apply Hfresh.
  rewrite fmap_app, elem_of_app.
  destruct (decide (fresh_for pool q)) as [Hf|Hf].
  - right. apply list_elem_of_fmap. exists q. split; [done|].
    by apply list_elem_of_filter.
  - left. unfold fresh_for in Hf. by destruct (decide (question_text q ∈ question_text <$> pool)).
Qed.

(** X4.  Merging the same non-empty batch a second time changes nothing:
    every fetched text is in the pool after the first merge. *)
Theorem merge_twice_is_merge_once difficulty pool q questions w :
  trivia_cache w !! difficulty = Some pool →
  merge_fetched difficulty (q :: questions)
    (merge_fetched difficulty (q :: questions) w).2
  = (Return (), (merge_fetched difficulty (q :: questions) w).2).
Proof.
  intros Hpool. rewrite (merge_fetched_nonempty _ _ _ _ _ Hpool). cbn [snd].
  erewrite merge_fetched_nonempty
    by (unfold with_pool; simpl; apply lookup_insert_eq).
  rewrite filter_fresh_again, app_nil_r.
  unfold with_pool; simpl. by rewrite insert_insert_eq.
Qed.

Lemma merge_twice_is_merge_once_witness :
  merge_fetched "easy" [pluto; mars]
    (merge_fetched "easy" [pluto; mars] seeded_world).2
  = (Return (), (merge_fetched "easy" [pluto; mars] seeded_world).2).
Proof.
  apply (merge_twice_is_merge_once "easy" (take 5 FALLBACK_EASY)). reflexivity.
Defined.

(** ** The refill tasks *)

Lemma for_each_invariant {A} (I : world → Prop) (xs : list A) body :
  (∀ x w, x ∈ xs → I w → ∃ w', body x w = (Return (), w') ∧ I w') →
  ∀ w, I w → ∃ w', for_each_ xs body w = (Return (), w') ∧ I w'.
Proof.
  unfold for_each_. induction xs as [|x xs IH]; intros Hbody w Hw; simpl.
  - by exists w.
  - destruct (Hbody x w) as (w1 & H1 & Hw1); [left | done |].
    rewrite (bind_Return _ _ _ _ _ H1).
    apply IH; [|done]. intros y v Hy. apply Hbody. by right.
Qed.

Lemma save_trivia_cache_spec w :
  ∃ w', save_trivia_cache w = (Return (), w')
        ∧ trivia_cache w' = trivia_cache w
        ∧ (disk_writable w = true → trivia_cache_file w' = Some (trivia_cache w))
        ∧ (disk_writable w = false → w' = w).
Proof.
  unfold save_trivia_cache. destruct (disk_writable w) eqn:Hd;
    eexists; (split; [done|]); by repeat split.
Qed.

Lemma well_stocked_with_pool n d pool added w :
  well_stocked n w → trivia_cache w !! d = Some pool →
  well_stocked n (with_pool d (pool ++ added) w).
Proof.
  intros Hw Hpool e He. unfold with_pool; simpl.
  destruct (decide (d = e)) as [<-|Hne].
  - rewrite lookup_insert_eq. eexists. split; [done|].
    destruct (Hw d He) as (pool' & Hp' & Hn). simplify_eq.
    unfold len in *. rewrite length_app. lia.
  - rewrite lookup_insert_ne by done. by apply Hw.
Qed.

Lemma well_stocked_bank d :
  d ∈ ["easy"; "medium"; "hard"] →
  ∃ fallback, fallback_bank !! d = Some fallback ∧ 10 ≤ len fallback.
Proof.
  rewrite !elem_of_cons, elem_of_nil.
  intros [->|[->|[->|[]]]]; eexists; (split; [reflexivity|]); by vm_compute.
Qed.

Section RefillProofs.

Variable html_unescape : string → string.

Lemma fetch_keeps_cache difficulty amount w :
  ∃ questions w',
    fetch_trivia_from_api html_unescape difficulty amount w = (Return questions, w')
    ∧ trivia_cache w' = trivia_cache w
    ∧ disk_writable w' = disk_writable w
    ∧ trivia_cache_file w' = trivia_cache_file w.
Proof.
  destruct (fetch_world html_unescape difficulty amount w) as (qs & t & Hf).
  eexists _, _. split; [exact Hf|].
  unfold after_wait.
  by destruct (net w) as [|[latency reply] rest], (Qltb 0 _).
Qed.

(** The seeding loop of [prefetch_trivia]. *)
Lemma seeding_spec w :
  ∃ w',
    for_each_
      [("easy", FALLBACK_EASY); ("medium", FALLBACK_MEDIUM); ("hard", FALLBACK_HARD)]
      (λ '(diff, fallback),
         pool <- cache_get diff ;;
         if len pool <? TRIVIA_MIN_CACHE then cache_set diff fallback else ret ())
      w = (Return (), w')
    ∧ w' = set_trivia_cache (trivia_cache w') w
    ∧ well_stocked 10 w'.
Proof.
  unfold for_each_, TRIVIA_MIN_CACHE. simpl.
  unfold bind, cache_get, gets, ret, cache_set, modify; simpl.
  destruct (Z.ltb_spec (len (default [] (trivia_cache w !! "easy"))) 10) as [He|He];
    simpl; rewrite ?lookup_insert_ne by done;
    destruct (Z.ltb_spec (len (default [] (trivia_cache w !! "medium"))) 10) as [Hm|Hm];
    simpl; rewrite ?lookup_insert_ne by done;
    destruct (Z.ltb_spec (len (default [] (trivia_cache w !! "hard"))) 10) as [Hh|Hh];
    simpl.
  all: eexists; split; [reflexivity|]; split; [by destruct w|].
  all: intros d; rewrite !elem_of_cons, elem_of_nil; simpl.
  all: intros [->|[->|[->|[]]]]; simpl.
  all: repeat (rewrite lookup_insert_ne by done).
  all: try (rewrite lookup_insert_eq; eexists; split; [reflexivity|]; by vm_compute).
  all: match goal with
       | H : 10 ≤ len (default [] (?c !! ?k)) |- ∃ pool, ?c !! ?k = Some pool ∧ _ =>
         destruct (c !! k) as [pool|]; [by exists pool | by vm_compute in H]
       end.
Qed.

Lemma well_stocked_cache n w w' :
  trivia_cache w' = trivia_cache w → well_stocked n w → well_stocked n w'.
Proof. intros Hc Hw d Hd. rewrite Hc. by apply Hw. Qed.

Lemma well_stocked_weaken n m w : m ≤ n → well_stocked n w → well_stocked m w.
Proof.
  intros Hmn Hw d Hd. destruct (Hw d Hd) as (pool & Hp & Hn).
  exists pool. split; [done | lia].
Qed.

Lemma time_sleep_spec d w :
  time_sleep d w = (Return (), set_clock (clock w + d)%Q w).
Proof. done. Qed.

(** One tier of the fetch loop of [prefetch_trivia]. *)
Lemma prefetch_tier_spec d w :
  d ∈ ["easy"; "medium"; "hard"] → well_stocked 10 w →
  ∃ w',
    (pool <- cache_get d ;;
     if 30 <=? len pool then ret ()
     else
       questions <- fetch_trivia_from_api html_unescape d 30 ;;
       merge_fetched d questions ;;
       time_sleep TRIVIA_FETCH_DELAY) w = (Return (), w')
    ∧ well_stocked 10 w'
    ∧ disk_writable w' = disk_writable w.
Proof.
  intros Hd Hw.
  rewrite (bind_Return _ _ _ _ _ (cache_get_spec d w)).
  destruct (30 <=? len (default [] (trivia_cache w !! d))); [by exists w|].
  destruct (fetch_keeps_cache d 30 w) as (qs & w1 & Hf & Hc1 & Hd1 & _).
  rewrite (bind_Return _ _ _ _ _ Hf).
  pose proof (well_stocked_cache 10 w w1 Hc1 Hw) as Hw1.
  destruct (Hw1 d Hd) as (pool & Hpool & Hlen).
  destruct (well_stocked_bank d Hd) as (fb & Hfb & _).
  destruct qs as [|q qs].
  - rewrite (bind_Return _ _ _ _ _ (merge_fetched_empty d pool fb w1 Hpool Hfb)).
    rewrite time_sleep_spec. eexists. split; [done|].
    destruct (len pool <? len fb); simpl.
    + split; [|done].
      eapply well_stocked_cache; [|by eapply well_stocked_with_pool]. done.
    + split; [|done]. eapply well_stocked_cache; [|exact Hw1]. done.
  - rewrite (bind_Return _ _ _ _ _ (merge_fetched_nonempty d pool q qs w1 Hpool)).
    rewrite time_sleep_spec. eexists. split; [done|]. simpl.
    split; [|done].
    eapply well_stocked_cache; [|by eapply well_stocked_with_pool]. done.
Qed.

(** X5.  Whatever the network does, [prefetch_trivia] returns without
    raising and leaves each of the three tiers with at least 10 questions;
    when the disk can be written, the cache file then holds the cache it
    ends with. *)
Theorem prefetch_leaves_every_tier_stocked w :
  ∃ w',
    prefetch_trivia html_unescape w = (Return (), w')
    ∧ well_stocked 10 w'
    ∧ (disk_writable w = true → trivia_cache_file w' = Some (trivia_cache w')).
Proof.
  unfold prefetch_trivia.
  destruct (seeding_spec w) as (w1 & H1 & Hw1eq & Hw1).
  rewrite (bind_Return _ _ _ _ _ H1).
  destruct (for_each_invariant
              (λ v, well_stocked 10 v ∧ disk_writable v = disk_writable w)
              ["easy"; "medium"; "hard"]
              (λ difficulty,
                 pool <- cache_get difficulty ;;
                 if 30 <=? len pool then ret ()
                 else
                   questions <- fetch_trivia_from_api html_unescape difficulty 30 ;;
                   merge_fetched difficulty questions ;;
                   time_sleep TRIVIA_FETCH_DELAY)) with (w := w1)
    as (w2 & H2 & Hw2 & Hd2).
  - intros d v Hd [Hv Hdv].
    destruct (prefetch_tier_spec d v Hd Hv) as (v' & Hb & Hv' & Hdv').
    exists v'. split; [done|]. split; [done | congruence].
  - split; [done|]. by rewrite Hw1eq.
  - rewrite (bind_Return _ _ _ _ _ H2).
    destruct (save_trivia_cache_spec w2) as (w3 & H3 & Hc3 & Hfile & _).
    exists w3. split; [done|]. split.
    + by eapply well_stocked_cache.
    + intros Hdisk. rewrite Hc3. apply Hfile. congruence.
Qed.

(** X6.  When every tier already holds 30 questions or more, a run of
    [prefetch_trivia] sends no request, sleeps for no time and touches no
    pool: it amounts to saving the cache. *)
Theorem prefetch_of_a_full_cache_only_saves w :
  well_stocked 30 w →
  prefetch_trivia html_unescape w = save_trivia_cache w.
Proof.
  intros Hw.
  destruct (Hw "easy") as (pe & He & Hle); [set_solver|].
  destruct (Hw "medium") as (pm & Hm & Hlm); [set_solver|].
  destruct (Hw "hard") as (ph & Hh & Hlh); [set_solver|].
  unfold len in *.
  assert (Ee : (Z.of_nat (length pe) <? 10) = false) by (apply Z.ltb_ge; lia).
  assert (Em : (Z.of_nat (length pm) <? 10) = false) by (apply Z.ltb_ge; lia).
  assert (Eh : (Z.of_nat (length ph) <? 10) = false) by (apply Z.ltb_ge; lia).
  assert (Fe : (30 <=? Z.of_nat (length pe)) = true) by (apply Z.leb_le; lia).
  assert (Fm : (30 <=? Z.of_nat (length pm)) = true) by (apply Z.leb_le; lia).
  assert (Fh : (30 <=? Z.of_nat (length ph)) = true) by (apply Z.leb_le; lia).
  unfold prefetch_trivia, for_each_, TRIVIA_MIN_CACHE. simpl.
  unfold bind, cache_get, gets, ret, len; simpl.
  repeat (first [ rewrite He | rewrite Hm | rewrite Hh
                | rewrite Ee | rewrite Em | rewrite Eh
                | rewrite Fe | rewrite Fm | rewrite Fh ]; simpl).
  done.
Qed.

End RefillProofs.

Lemma prefetch_of_a_full_cache_only_saves_witness :
  prefetch_trivia (λ s, s) full_world = save_trivia_cache full_world.
Proof.
  apply (prefetch_of_a_full_cache_only_saves (λ s, s) full_world).
  intros d. rewrite !elem_of_cons, elem_of_nil.
  intros [->|[->|[->|[]]]]; eexists; (split; [reflexivity|]); by vm_compute.
Defined.

Section RefetchProofs.

Variable html_unescape : string → string.

Lemma fetch_unreachable difficulty amount w :
  net w = [] →
  fetch_trivia_from_api html_unescape difficulty amount w
  = (Return [], after_wait w).
Proof.
  intros Hnet. rewrite fetch_unfold.
  unfold try_except, fetch_attempt, urlopen, bind at 1.
  by rewrite after_wait_net, Hnet.
Qed.

Lemma grown_refl w : grown w w.
Proof. intros d pool Hp. exists []. by rewrite app_nil_r. Qed.

Lemma grown_cache w v v' : trivia_cache v' = trivia_cache v → grown w v → grown w v'.
Proof. intros Hc Hg d pool Hp. rewrite Hc. by apply Hg. Qed.

Lemma grown_with_pool w v d added :
  grown w v →
  grown w (with_pool d (default [] (trivia_cache v !! d) ++ added) v).
Proof.
  intros Hg e pool Hp. unfold with_pool; simpl.
  destruct (Hg e pool Hp) as (a & Ha).
  destruct (decide (d = e)) as [<-|Hne].
  - rewrite lookup_insert_eq, Ha. simpl. exists (a ++ added).
    by rewrite app_assoc.
  - rewrite lookup_insert_ne by done. by exists a.
Qed.

(** X7.  A round of the periodic refetch never raises and never removes a
    question: every pool it finds is a prefix of the pool it leaves.  When
    the source cannot be reached at all, it leaves the pools and the cache
    file exactly as they were. *)
Theorem refetch_pass_only_adds w :
  ∃ w',
    refetch_pass html_unescape w = (Return (), w')
    ∧ grown w w'
    ∧ (net w = [] →
       trivia_cache w' = trivia_cache w
       ∧ trivia_cache_file w' = trivia_cache_file w).
Proof.
  unfold refetch_pass, try_except.
  match goal with
  | |- context [for_each_ ?xs ?body w] =>
    destruct (for_each_invariant
                (λ v, grown w v
                      ∧ (net w = [] →
                         net v = [] ∧ trivia_cache v = trivia_cache w
                         ∧ trivia_cache_file v = trivia_cache_file w))
                xs body) with (w := w) as (w' & Hloop & Hg & Hq)
  end.
  - intros d v _ [Hg Hq].
    rewrite (bind_Return _ _ _ _ _ (cache_get_spec d v)).
    destruct (len (default [] (trivia_cache v !! d)) <? 15); [|by exists v].
    destruct (decide (net v = [])) as [Hnet|Hnet].
    + rewrite (bind_Return _ _ _ _ _ (fetch_unreachable d 20 v Hnet)).
      unfold bind at 1, ret at 1. rewrite time_sleep_spec.
      eexists. split; [done|]. split.
      * eapply grown_cache; [|exact Hg]. simpl. unfold after_wait.
        by destruct (Qltb 0 _).
      * intros Hw. destruct (Hq Hw) as (_ & Hc & Hf). simpl.
        rewrite after_wait_net. split; [done|].
        unfold after_wait. by destruct (Qltb 0 _).
    + destruct (fetch_keeps_cache html_unescape d 20 v)
        as (qs & v1 & Hf & Hc1 & Hd1 & Hfile1).
      rewrite (bind_Return _ _ _ _ _ Hf).
      assert (Hw : net w ≠ []) by (intros Hw; by destruct (Hq Hw)).
      destruct qs as [|q qs].
      * unfold bind at 1, ret at 1. rewrite time_sleep_spec.
        eexists. split; [done|]. split; [|done].
        eapply grown_cache; [|exact Hg]. by simpl.
      * unfold bind at 1.
        rewrite (bind_Return _ _ _ _ _ (cache_get_spec d v1)).
        cbv zeta.
        rewrite (bind_Return _ _ _ _ _ (cache_get_spec d v1)).
        rewrite (bind_Return _ _ _ _ _ (cache_set_spec d _ v1)).
        match goal with
        | |- context [save_trivia_cache ?v] =>
          destruct (save_trivia_cache_spec v) as (v2 & Hs & Hc2 & _)
        end.
        rewrite Hs, time_sleep_spec. eexists. split; [done|]. split; [|done].
        eapply grown_cache; [exact Hc2|].
        apply grown_with_pool. by eapply grown_cache.
  - split; [apply grown_refl | done].
  - rewrite Hloop. exists w'. split; [done|]. split; [done|].
    intros Hw. by destruct (Hq Hw) as (_ & ? & ?).
Qed.

End RefetchProofs.

(** ** Sampling: the cache after a call, the views, the handler *)

Lemma reseeded_cache difficulty w :
  ∃ pool,
    trivia_cache (reseeded difficulty w) !! difficulty = Some pool ∧ pool ≠ []
    ∧ ∀ d, d ≠ difficulty →
           trivia_cache (reseeded difficulty w) !! d = trivia_cache w !! d.
Proof.
  unfold reseeded.
  destruct (trivia_cache w !! difficulty) as [[|q pool]|] eqn:Hc; simpl.
  - exists (reseed_bank difficulty). rewrite lookup_insert_eq.
    split; [done|]. split; [apply reseed_bank_nonempty|].
    intros d Hd. by rewrite lookup_insert_ne.
  - by exists (q :: pool).
  - exists (reseed_bank difficulty). rewrite lookup_insert_eq.
    split; [done|]. split; [apply reseed_bank_nonempty|].
    intros d Hd. by rewrite lookup_insert_ne.
Qed.


Section SamplingFrame.

Variable ceil_log4 : Z → Z.

Lemma get_trivia_question_negative difficulty count w :
  count < 0 →
  get_trivia_question ceil_log4 difficulty count w
  = (Raise ValueError, reseeded difficulty w).
Proof.
  intros Hc. unfold get_trivia_question.
  rewrite (bind_Return (cache_get difficulty) _ w
             (default [] (trivia_cache w !! difficulty)) w eq_refl).
  assert (Hpool := pool_lookup_spec difficulty w).
  destruct (default [] (trivia_cache w !! difficulty)) as [|q0 pool0] eqn:Hcache;
    rewrite (bind_Return _ _ _ _ _ Hpool);
    (destruct (Z.leb_spec (len (sampled_pool difficulty w)) count);
     [unfold len in *; lia|]);
    by rewrite (bind_Raise _ _ _ _ _ (random_sample_negative _ _ _ _ Hc)).
Qed.

(** X8.  After any call of [get_trivia_question], whether it returned,
    raised or never ended, the cache holds a non-empty pool for the
    requested difficulty and the pools of all other difficulties are what
    they were. *)
Theorem sample_leaves_a_pool_behind difficulty count w :
  ∃ pool,
    trivia_cache (get_trivia_question ceil_log4 difficulty count w).2 !! difficulty
    = Some pool
    ∧ pool ≠ []
    ∧ ∀ d, d ≠ difficulty →
           trivia_cache (get_trivia_question ceil_log4 difficulty count w).2 !! d
           = trivia_cache w !! d.
Proof.
  assert (Hc : trivia_cache (get_trivia_question ceil_log4 difficulty count w).2
               = trivia_cache (reseeded difficulty w)).
  { destruct (Z.lt_ge_cases count 0) as [Hneg|Hpos].
    { by rewrite get_trivia_question_negative. }
    destruct (selection_ends_cases ceil_log4 (sampled_pool difficulty w) count w)
      as [Hends|Hends].
    - destruct (get_trivia_question_spec ceil_log4 difficulty count w Hpos Hends)
        as (sel & views & w' & -> & [g ->] & _). done.
    - destruct (get_trivia_question_stuck ceil_log4 difficulty count w Hpos Hends)
        as (w' & -> & [g ->]). done. }
  rewrite Hc. apply reseeded_cache.
Qed.



End SamplingFrame.



(** ** The cache file *)

(** X11.  Saving and loading round-trip: once the cache has been saved to
    a writable disk, a process that starts with that file loads exactly the
    saved pools, whatever its own cache held. *)
Theorem load_restores_the_saved_cache w v :
  disk_writable w = true →
  trivia_cache_file v = trivia_cache_file (save_trivia_cache w).2 →
  load_trivia_cache v = (Return (), set_trivia_cache (trivia_cache w) v).
Proof.
  intros Hd Hfile. unfold save_trivia_cache in Hfile. rewrite Hd in Hfile.
  simpl in Hfile. unfold load_trivia_cache, bind, gets, modify.
  by rewrite Hfile.
Qed.

Lemma load_restores_the_saved_cache_witness :
  load_trivia_cache (save_trivia_cache seeded_world).2
  = (Return (),
     set_trivia_cache (trivia_cache seeded_world) (save_trivia_cache seeded_world).2).
Proof.
  apply (load_restores_the_saved_cache seeded_world); reflexivity.
Defined.

(** X12.  Loading twice is loading once: after [load_trivia_cache], with a
    file or without one, with a writable disk or not, a second load leaves
    the world as the first one left it. *)
Theorem load_trivia_cache_is_idempotent w :
  load_trivia_cache (load_trivia_cache w).2
  = (Return (), (load_trivia_cache w).2).
Proof.
  unfold load_trivia_cache, bind, gets, modify, save_trivia_cache.
  destruct w as [g c lb t clk r n db [file|] [|]]; simpl; done.
Qed.

(** ** The leaderboard: ties, an already ranked store, the read path *)

Lemma insert_by_filter {A} (key : A → Z) (k : Z) x l :
  filter (λ y, key y = k) (insert_by key x l) = filter (λ y, key y = k) (x :: l).
Proof.
  induction l as [|y l IH]; simpl; [done|].
  destruct (Z.leb_spec (key x) (key y)) as [Hle|Hlt]; [done|].
  rewrite (filter_cons _ y), (filter_cons _ x), IH, (filter_cons _ x), (filter_cons _ y).
  destruct (decide (key y = k)), (decide (key x = k)); try done. lia.
Qed.

Lemma py_sort_filter {A} (key : A → Z) (k : Z) l :
  filter (λ y, key y = k) (py_sort key l) = filter (λ y, key y = k) l.
Proof.
  induction l as [|x l IH]; simpl; [done|].
  rewrite insert_by_filter, !filter_cons, IH. done.
Qed.

Lemma py_sort_sorted_id {A} (key : A → Z) l :
  StronglySorted (λ a b, key a ≤ key b) l → py_sort key l = l.
Proof.
  induction 1 as [|x l Hl IH Hx]; simpl; [done|]. rewrite IH.
  destruct l as [|y l]; simpl; [done|].
  apply Forall_cons in Hx as [Hxy _]. by destruct (Z.leb_spec (key x) (key y)); [|lia].
Qed.

Lemma refresh_leaderboard_spec w :
  refresh_leaderboard w
  = (Return (),
     set_cached_leaderboard
       (take 50 (py_sort (λ x, - score x) (stored_leaderboard w))) w).
Proof. done. Qed.

(** X13.  The ranking is stable.  A refresh returns, and its snapshot is
    the first 50 rows of the ranking of the stored rows: a rearrangement of
    them in descending order of score in which, for every score, the rows
    that have it appear in their stored order. *)
Theorem refresh_keeps_ties_in_stored_order w :
  ∃ ranked,
    refresh_leaderboard w
    = (Return (), set_cached_leaderboard (take 50 ranked) w)
    ∧ ranked ≡ₚ stored_leaderboard w
    ∧ StronglySorted (λ a b, score b ≤ score a) ranked
    ∧ ∀ s, filter (λ x, score x = s) ranked
           = filter (λ x, score x = s) (stored_leaderboard w).
Proof.
  exists (py_sort (λ x, - score x) (stored_leaderboard w)).
  split; [apply refresh_leaderboard_spec|].
  split; [apply py_sort_Permutation|].
  split; [apply descending_by_score, (py_sort_sorted (λ x, - score x))|].
  intros s.
  etrans; [apply (list_filter_iff _ (λ x, - score x = - s)); intros x; lia|].
  rewrite (py_sort_filter (λ x, - score x) (- s)).
  apply list_filter_iff. intros x. lia.
Qed.

(** X14.  A stored leaderboard that is already in descending order of
    score is shown as it is: the snapshot is its first 50 rows, and a
    second refresh changes nothing. *)
Theorem refresh_of_a_ranked_store w :
  StronglySorted (λ a b, score b ≤ score a) (stored_leaderboard w) →
  cached_leaderboard (refresh_leaderboard w).2 = take 50 (stored_leaderboard w)
  ∧ refresh_leaderboard (refresh_leaderboard w).2
    = (Return (), (refresh_leaderboard w).2).
Proof.
  intros Hs.
  assert (Hs' : StronglySorted (λ a b, - score a ≤ - score b) (stored_leaderboard w)).
  { induction Hs as [|x l Hl IH Hx]; constructor; [done|].
    eapply Forall_impl; [exact Hx|]. simpl. lia. }
  rewrite !refresh_leaderboard_spec. simpl.
  change (stored_leaderboard (set_cached_leaderboard
            (take 50 (py_sort (λ x, - score x) (stored_leaderboard w))) w))
    with (stored_leaderboard w).
  by rewrite !py_sort_sorted_id by done.
Qed.

Lemma refresh_of_a_ranked_store_witness :
  cached_leaderboard (refresh_leaderboard ranked_world).2 = [cat; ann; ben].
Proof.
  apply (refresh_of_a_ranked_store ranked_world).
  repeat constructor; by vm_compute.
Defined.

(** X15.  The leaderboard read path only reads: it leaves the world as it
    is and returns at most 20 rows, the first rows of the snapshot when the
    snapshot is not empty and otherwise the first rows of the stored
    leaderboard, which it does not put in the snapshot. *)
Theorem api_leaderboard_only_reads w :
  ∃ top,
    api_leaderboard w = (Return top, w)
    ∧ (length top ≤ 20)%nat
    ∧ top = match cached_leaderboard w with
            | [] => take 20 (stored_leaderboard w)
            | _ :: _ => take 20 (cached_leaderboard w)
            end.
Proof.
  unfold api_leaderboard, bind, gets, load_db, ret, stored_leaderboard; simpl.
  destruct (cached_leaderboard w) as [|e lb] eqn:Hc; simpl.
  - eexists. split; [done|]. split; [|done]. rewrite length_take. lia.
  - eexists. split; [done|]. split; [|done].
    change (S (length (take 19 lb)) ≤ 20)%nat. rewrite length_take. lia.
Qed.

(** ** The outcome engine: an invariant, and the cursor out of bounds *)

Lemma bias_template_ticks t : ticks (bias_template t).
Proof.
  unfold ticks. destruct t; apply (bool_decide_unpack _); vm_compute; reflexivity.
Qed.

Lemma ticks_Permutation pat pat' : pat ≡ₚ pat' → ticks pat' → ticks pat.
Proof.
  unfold ticks. rewrite !Forall_forall. intros Hp H x Hx. apply H. by rewrite <- Hp.
Qed.

Lemma corrective_rules_tick x st w :
  x = 0 ∨ x = 1 →
  ∃ r w', corrective_rules x st w = (Return r, w')
          ∧ (r = 0 ∨ r = 1) ∧ active_games w' = active_games w.
Proof.
  intros Hx.
  destruct (corrective_rules_props x st w) as (r & w' & Hr & Hw' & _ & _ & _ & H3).
  exists r, w'. split; [done|]. split.
  - destruct (decide (r = x)) as [->|Hne]; [done|].
    destruct (H3 Hne) as [(_ & _ & _ & ->)|(_ & _ & _ & ->)]; auto.
  - by rewrite Hw'.
Qed.

(** X16.  The engine keeps a session going: from a state whose cursor is
    not negative and whose stored sequence, if any, is made of zeros and
    ones not overrun by the cursor, a call returns 0 or 1 and leaves a state
    of the same kind, with a stored sequence and a cursor inside it.  Hence
    any number of successive calls return zeros and ones. *)
Theorem engine_keeps_sessions_sane token st w :
  active_games w !! token = Some st → sane st →
  ∃ r w' st' pat,
    get_next_outcome token w = (Return r, w')
    ∧ (r = 0 ∨ r = 1)
    ∧ active_games w' !! token = Some st'
    ∧ sane st'
    ∧ pattern st' = Some pat
    ∧ 0 < pattern_pos st' ≤ len pat.
Proof.
  intros Hst [Hpos Hsane].
  destruct (exhausted st) eqn:Hex.
  - destruct (get_next_outcome_fresh token st w Hst Hex)
      as (pat & w1 & x & Hg & Hx & ->).
    destruct (generate_pattern_spec (level st) w) as (pat' & w1' & Hg' & _ & Hp).
    rewrite Hg in Hg'. injection Hg' as <- <-.
    assert (Hticks : ticks pat)
      by (eapply ticks_Permutation; [exact Hp | apply bias_template_ticks]).
    assert (Hlen : length pat = 15%nat)
      by (rewrite (Permutation_length Hp); apply bias_template_length).
    assert (Htick : x = 0 ∨ x = 1).
    { unfold ticks in Hticks. rewrite Forall_forall in Hticks.
      apply Hticks. by eapply list_elem_of_lookup_2. }
    destruct (corrective_rules_tick x
                (GameState (level st) (money st) (streak st) (Some pat) 0)
                (with_game token
                   (GameState (level st) (money st) (streak st) (Some pat) 1) w1)
                Htick) as (r & w' & Hr & Hr01 & Hgames).
    exists r, w', (GameState (level st) (money st) (streak st) (Some pat) 1), pat.
    split; [done|]. split; [done|]. split.
    { rewrite Hgames. apply lookup_insert_eq. }
    unfold sane, len; simpl. rewrite Hlen.
    split; [|split; [done | lia]].
    split; [lia|]. intros ? [= <-]. rewrite Hlen. split; [lia | done].
  - destruct (exhausted_false st Hex) as (pat & Hpat & Hlt).
    destruct (Hsane pat Hpat) as [_ Hticks].
    destruct (get_next_outcome_cursor token st pat w Hst Hpat ltac:(lia))
      as (x & Hx & ->).
    assert (Htick : x = 0 ∨ x = 1).
    { unfold ticks in Hticks. rewrite Forall_forall in Hticks.
      apply Hticks. by eapply list_elem_of_lookup_2. }
    destruct (corrective_rules_tick x st
                (with_game token (set_pattern_pos (pattern_pos st + 1) st) w)
                Htick) as (r & w' & Hr & Hr01 & Hgames).
    exists r, w', (set_pattern_pos (pattern_pos st + 1) st), pat.
    split; [done|]. split; [done|]. split.
    { rewrite Hgames. apply lookup_insert_eq. }
    unfold sane, len; simpl. split; [|split; [done | lia]].
    split; [lia|]. intros ? Hp. rewrite Hpat in Hp. injection Hp as <-.
    split; [lia | done].
Qed.

Lemma engine_keeps_sessions_sane_witness :
  ∃ r w', get_next_outcome "bob" casino = (Return r, w') ∧ (r = 0 ∨ r = 1).
Proof.
  destruct (engine_keeps_sessions_sane "bob" newcomer casino)
    as (r & w' & st' & pat & Hcall & Hr & _).
  - reflexivity.
  - split; [simpl; lia | intros pat Hpat; discriminate Hpat].
  - exists r, w'. split; [exact Hcall | exact Hr].
Defined.

(** X17.  A negative cursor is an index from the end, as in Python: when
    it reaches before the start of the stored sequence the call raises
    [IndexError] and changes nothing; otherwise the element counted from
    the end is read and the cursor is advanced by one. *)
Theorem negative_cursor_counts_from_the_end token st pat w :
  active_games w !! token = Some st → pattern st = Some pat →
  pattern_pos st < 0 →
  if decide (pattern_pos st < - len pat)
  then get_next_outcome token w = (Raise IndexError, w)
  else ∃ x,
         pat !! Z.to_nat (len pat + pattern_pos st) = Some x
         ∧ get_next_outcome token w
           = corrective_rules x st
               (with_game token (set_pattern_pos (pattern_pos st + 1) st) w).
Proof.
  intros Hst Hpat Hneg.
  rewrite (get_next_outcome_present token st pat w Hst Hpat)
    by (unfold len; lia).
  unfold py_getitem, len.
  destruct (Z.ltb_spec (pattern_pos st) 0); [|lia].
  case_decide as Hlow.
  - destruct (Z.ltb_spec (pattern_pos st + Z.of_nat (length pat)) 0); [|lia].
    simpl. by rewrite (bind_Raise _ _ w IndexError w).
  - destruct (Z.ltb_spec (pattern_pos st + Z.of_nat (length pat)) 0); [lia|].
    destruct (Z.leb_spec (Z.of_nat (length pat))
                (pattern_pos st + Z.of_nat (length pat))); [lia|]. simpl.
    destruct (lookup_lt_is_Some_2 pat
                (Z.to_nat (pattern_pos st + Z.of_nat (length pat))))
      as [x Hx]; [lia|].
    exists x. rewrite Z.add_comm. split; [done|]. by rewrite Hx.
Qed.

Lemma negative_cursor_counts_from_the_end_witness :
  get_next_outcome "dan" (with_game "dan" broken_cursor quiet_world)
  = (Raise IndexError, with_game "dan" broken_cursor quiet_world).
Proof.
  apply (negative_cursor_counts_from_the_end "dan" broken_cursor [1; 0; 1]
           (with_game "dan" broken_cursor quiet_world));
    [reflexivity | reflexivity | simpl; lia].
Defined.

(** ** Scores, sessions and accounts *)


Lemma sort_by_stored_score_scored l :
  all_scored l → sort_by_stored_score l = Some (py_sort (λ x, - score x) l).
Proof.
  intros Hl. unfold sort_by_stored_score.
  assert (Hf : forallb (λ x, bool_decide (is_Some (lb_score x))) l = true).
  { apply Is_true_eq_true, forallb_True.
    eapply Forall_impl; [exact Hl|]. intros x Hx. by apply bool_decide_pack. }
  by rewrite Hf.
Qed.

Lemma sort_by_stored_score_scoreless l x :
  x ∈ l → lb_score x = None → sort_by_stored_score l = None.
Proof.
  intros Hx Hs. unfold sort_by_stored_score.
  destruct (forallb _ l) eqn:Hf; [|done].
  apply Is_true_eq_left, forallb_True in Hf. rewrite Forall_forall in Hf.
  specialize (Hf x Hx). apply bool_decide_unpack in Hf.
  rewrite Hs in Hf. by destruct Hf.
Qed.




(** X19.  Recording a score updates the player's counters, whether or not
    the leaderboard can then be sorted: one more game, the crashes added,
    a high score and a best streak that never decrease, a history of at
    most 20 games that ends with this game, the same password hash; the
    other players are left as they were. *)
Theorem update_score_counts_the_game now db username points crashes streak extra u :
  get_user db username = Some u →
  let e := update_score now db username points crashes streak extra in
  ∃ u' history,
    get_user (db_after e) username = Some u'
    ∧ u_total_games u' = Some (default 0 (u_total_games u) + 1)
    ∧ u_total_crashes u' = Some (default 0 (u_total_crashes u) + crashes)
    ∧ default 0 (u_high_score u') = Z.max (default 0 (u_high_score u)) points
    ∧ default 0 (u_best_streak u') = Z.max (default 0 (u_best_streak u)) streak
    ∧ u_password_hash u' = u_password_hash u
    ∧ u_game_history u' = Some history
    ∧ (length history ≤ 20)%nat
    ∧ (∃ game, last history = Some game
               ∧ g_score game = points ∧ g_crashes game = crashes
               ∧ g_streak game = streak ∧ g_time game = now)
    ∧ ∀ other, other ≠ username →
               get_user (db_after e) other = get_user db other.
Proof.
  intros Hu. simpl.
  set (u' := count_game now points crashes streak extra u).
  assert (Hdb : ∃ lb sv r,
    update_score now db username points crashes streak extra
    = Effect r (Document (Some (<[username := u']> (default ∅ (users db))))
                         (sessions db) lb) sv).
  { unfold update_score. rewrite Hu. fold u'.
    destruct (sort_by_stored_score _); by eexists _, _, _. }
  destruct Hdb as (lb & sv & r & ->). simpl.
  eexists u', _. unfold get_user; simpl.
  split; [apply lookup_insert_eq|]. split; [done|]. split; [done|].
  split. { destruct (Z.ltb_spec (default 0 (u_high_score u)) points); simpl; lia. }
  split. { destruct (Z.ltb_spec (default 0 (u_best_streak u)) streak); simpl; lia. }
  split; [done|]. split; [done|]. split.
  { rewrite length_drop. lia. }
  split.
  - eexists (GameRecord points crashes streak now _). split; [|done].
    rewrite length_app, drop_app. simpl.
    replace (length (default [] (u_game_history u)) + 1 - 20
             - length (default [] (u_game_history u)))%nat with 0%nat by lia.
    simpl. apply last_snoc.
  - intros other Hother. by rewrite lookup_insert_ne.
Qed.

Lemma update_score_counts_the_game_witness :
  ∃ u', get_user (db_after (update_score 7 site "ann" 300 1 2 None)) "ann" = Some u'
        ∧ u_total_games u' = Some 2
        ∧ default 0 (u_high_score u') = 300.
Proof.
  destruct (update_score_counts_the_game 7 site "ann" 300 1 2 None ann_account)
    as (u' & history & Hu' & Hgames & _ & Hhigh & _); [reflexivity|].
  exists u'. split; [exact Hu'|]. split; [exact Hgames | exact Hhigh].
Defined.

(** X20.  One stored row without a score blocks every other player's
    update: the sort raises [KeyError] on it, nothing is saved and the
    leaderboard is left as it was, although the player's counters have
    already been changed in the dictionary. *)
Theorem update_score_stops_at_a_scoreless_row
    now db username points crashes streak extra u row :
  get_user db username = Some u →
  row ∈ default [] (leaderboard db) →
  lb_username row ≠ username → lb_score row = None →
  let e := update_score now db username points crashes streak extra in
  result e = Raise (KeyError "score")
  ∧ saved e = None
  ∧ leaderboard (db_after e) = leaderboard db
  ∧ get_user (db_after e) username
    = Some (count_game now points crashes streak extra u).
Proof.
  intros Hu Hrow Hname Hscore. simpl. unfold update_score. rewrite Hu.
  erewrite (sort_by_stored_score_scoreless _ row); [| |exact Hscore].
  - simpl. unfold get_user; simpl. by rewrite lookup_insert_eq.
  - apply elem_of_app. left. by apply list_elem_of_filter.
Qed.

Lemma update_score_stops_at_a_scoreless_row_witness :
  result (update_score 7 site_with_scoreless_row "ann" 300 1 2 None)
  = Raise (KeyError "score").
Proof.
  apply (update_score_stops_at_a_scoreless_row 7 site_with_scoreless_row
           "ann" 300 1 2 None ann_account eve).
  - reflexivity.
  - simpl. right. left.
  - discriminate.
  - reflexivity.
Defined.


(** The subtraction rounds as Python's does.  A session created at the
    reading 0.1 and looked up at the reading 86400.1 is a few picoseconds
    older than 24 hours, but its computed age is 86400.0 and it is still
    recognised; one second later it is gone. *)
Example session_age_is_rounded :
  let created := round_to_double 0.1 in
  let later := round_to_double 86400.1 in
  let db := db_after (create_session created "t" site "ann") in
  (86400 < later - created)%Q
  ∧ (float_sub later created == 86400)%Q
  ∧ result (get_session_user later db "t") = Some "ann"
  ∧ result (get_session_user (later + 1) db "t") = None.
Proof.
  simpl. split; [by vm_compute|]. split; [by vm_compute|].
  split; by vm_compute.
Qed.

Section PasswordProofs.

Variable sha256_hex : string → string.


End PasswordProofs.


(** ** From a recorded score to the snapshot *)

Lemma update_score_scored now db username points crashes streak extra u :
  get_user db username = Some u →
  all_scored (default [] (leaderboard db)) →
  let u' := count_game now points crashes streak extra u in
  let row := leaderboard_row now username points crashes u' in
  let ranked :=
    py_sort (λ x, - score x)
      (filter (λ x, lb_username x ≠ username) (default [] (leaderboard db))
       ++ [row]) in
  lb_score row = Some (match u_high_score u with
                       | Some h => Z.max h points
                       | None => points
                       end)
  ∧ saved (update_score now db username points crashes streak extra)
    = Some (Document (Some (<[username := u']> (default ∅ (users db))))
                     (sessions db) (Some (take 100 ranked))).
Proof.
  intros Hu Hall. simpl.
  set (u' := count_game now points crashes streak extra u).
  set (row := leaderboard_row now username points crashes u').
  assert (Hscore : lb_score row
                   = Some (match u_high_score u with
                           | Some h => Z.max h points
                           | None => points
                           end)).
  { unfold row, leaderboard_row, u', count_game; simpl. f_equal.
    destruct (u_high_score u) as [h|]; simpl.
    - destruct (Z.ltb_spec h points); simpl; lia.
    - by destruct (Z.ltb_spec 0 points). }
  split; [done|].
  unfold update_score. rewrite Hu. fold u'. simpl leaderboard. fold row.
  rewrite sort_by_stored_score_scored; [done|].
  apply Forall_app. split.
  - apply Forall_forall. intros x [_ Hx]%list_elem_of_filter.
    unfold all_scored in Hall. rewrite Forall_forall in Hall. by apply Hall.
  - constructor; [|constructor]. by rewrite Hscore.
Qed.

(** X23.  A recorded score reaches the snapshot.  When the database that
    [update_score] saved is the file a refresh reads, the snapshot is the
    first 50 rows of the saved leaderboard, in the saved order; and with
    fewer than 50 rows stored before the update, it contains the player's
    row, carrying the larger of the old high score and the new score. *)
Theorem a_recorded_score_reaches_the_snapshot
    now db username points crashes streak extra u d w :
  get_user db username = Some u →
  all_scored (default [] (leaderboard db)) →
  saved (update_score now db username points crashes streak extra) = Some d →
  db_file w = Some (cache_view d) →
  cached_leaderboard (refresh_leaderboard w).2
  = take 50 (default [] (leaderboard d))
  ∧ ((length (default [] (leaderboard db)) < 50)%nat →
     ∃ row, row ∈ cached_leaderboard (refresh_leaderboard w).2
            ∧ lb_username row = username
            ∧ lb_score row = Some (match u_high_score u with
                                   | Some h => Z.max h points
                                   | None => points
                                   end)).
Proof.
  intros Hu Hall Hsaved Hfile.
  destruct (update_score_scored now db username points crashes streak extra u
              Hu Hall) as [Hscore Hsaved'].
  rewrite Hsaved in Hsaved'. injection Hsaved' as ->.
  set (row := leaderboard_row now username points crashes
                (count_game now points crashes streak extra u)) in *.
  set (others := filter (λ x, lb_username x ≠ username)
                        (default [] (leaderboard db))) in *.
  set (ranked := py_sort (λ x, - score x) (others ++ [row])).
  rewrite refresh_leaderboard_spec. unfold stored_leaderboard. rewrite Hfile.
  simpl. fold ranked.
  assert (Hsorted : StronglySorted (λ a b, - score a ≤ - score b) (take 100 ranked))
    by apply StronglySorted_take, (py_sort_sorted (λ x, - score x)).
  rewrite (py_sort_sorted_id _ _ Hsorted). split; [done|].
  intros Hshort. exists row.
  assert (Hperm : ranked ≡ₚ others ++ [row]) by apply py_sort_Permutation.
  assert (Hlen : (length ranked ≤ 50)%nat).
  { rewrite (Permutation_length Hperm), length_app. simpl.
    pose proof (length_filter (λ x, lb_username x ≠ username)
                  (default [] (leaderboard db))) as Hf.
    fold others in Hf. lia. }
  rewrite take_take, (take_ge ranked) by lia.
  split; [|done]. rewrite Hperm. apply elem_of_app. right. left.
Qed.

Lemma a_recorded_score_reaches_the_snapshot_witness :
  ∃ row,
    row ∈ cached_leaderboard (refresh_leaderboard site_reloaded).2
    ∧ lb_username row = "ann" ∧ lb_score row = Some 300.
Proof.
  destruct (a_recorded_score_reaches_the_snapshot 7 site "ann" 300 1 2 None
              ann_account site_after_game site_reloaded) as [_ Hrow].
  - reflexivity.
  - apply (bool_decide_unpack _). vm_compute. reflexivity.
  - vm_compute. reflexivity.
  - reflexivity.
  - apply Hrow. simpl. lia.
Defined.
